(** * Tyre rolling-resistance fuel cost calculator (app.py)

    A shallow embedding of [calculate_fuel_costs_by_grade] and the
    properties its specification states about it.

    The function is pure float arithmetic over three inputs and a fixed
    table of tyre grades.  It is written once below, over an interface of
    the arithmetic operations it uses, and read at two instances:

    - [Binary64]: IEEE 754 binary64 with round-to-nearest-even, which is
      what CPython's [float] is.  This is the program as it runs.
    - [Exact]: the rationals, i.e. the same text with no rounding, no
      overflow and no underflow.  This is the arithmetic the algebraic
      laws of the specification are meant in.

    Python's exceptions are explicit: a computation returns [Ok v] or
    [Raise e].

    What holds of the program as it runs is proved at [Binary64], through
    the standard library's specification of the binary64 operations; for
    the order of the deltas this takes that rounding to nearest is
    monotone, which is proved below on an integer model of the rounding. *)

From Stdlib Require Import Bool ZArith QArith Lia.
From Stdlib Require Import Floats Uint63.
From Stdlib Require Import String List.
Import ListNotations.

Set Warnings "-inexact-float".

(* ================================================================== *)
(** * Outcomes of a Python call *)

(** The exceptions a statement of the function could raise, and the
    domain error that the specification names.  No statement of app.py
    raises [InvalidInput]. *)
Inductive exception : Type :=
| ZeroDivisionError
| KeyError (key : string)
| InvalidInput.

Inductive result (A : Type) : Type :=
| Ok (value : A)
| Raise (exn : exception).

Arguments Ok {A} value.
Arguments Raise {A} exn.

Definition bind {A B : Type} (c : result A) (k : A -> result B) : result B :=
  match c with
  | Ok a => k a
  | Raise e => Raise e
  end.

Declare Scope py_scope.
Delimit Scope py_scope with py.

Notation "x <- c ;; k" := (bind c (fun x => k))
  (at level 61, c at next level, right associativity) : py_scope.

(** [returns c] holds when the call comes back with a value. *)
Definition returns {A : Type} (c : result A) : bool :=
  match c with Ok _ => true | Raise _ => false end.

(* ================================================================== *)
(** * The arithmetic of Python floats *)

(** The operations of [float] that the function uses.  [lit q] is the
    value of the source literal whose decimal reading is [q]; [div] is the
    quotient for a non-zero divisor. *)
Class PyFloat (num : Type) : Type := {
  lit : Q -> num;
  add : num -> num -> num;
  sub : num -> num -> num;
  mul : num -> num -> num;
  div : num -> num -> num;
  eqb : num -> num -> bool;
  leb : num -> num -> bool;
  ltb : num -> num -> bool
}.

Infix "+" := add : py_scope.
Infix "-" := sub : py_scope.
Infix "*" := mul : py_scope.
Infix "==" := eqb (at level 70, no associativity) : py_scope.
Infix "<=?" := leb (at level 70, no associativity) : py_scope.
Infix "<?" := ltb (at level 70, no associativity) : py_scope.

(** Python's [x / y] on floats: [ZeroDivisionError] when [y == 0.0]
    (which holds of both zeros), the quotient otherwise. *)
Definition truediv {num : Type} `{PyFloat num} (x y : num) : result num :=
  if eqb y (lit 0) then Raise ZeroDivisionError else Ok (div x y).

Infix "/" := truediv : py_scope.

(** ** Binary64 *)

Definition float_of_Z (z : Z) : float :=
  match z with
  | Z0 => PrimFloat.zero
  | Zpos _ => PrimFloat.of_uint63 (Uint63.of_Z z)
  | Zneg p => PrimFloat.opp (PrimFloat.of_uint63 (Uint63.of_Z (Zpos p)))
  end.

(** A decimal literal denotes the binary64 value nearest to it.  Numerator
    and denominator of the literals used here are below 2^53, hence exact
    as floats, and the one division rounds correctly. *)
Definition float_of_Q (q : Q) : float :=
  PrimFloat.div (float_of_Z (Qnum q)) (float_of_Z (Zpos (Qden q))).

#[export] Instance Binary64 : PyFloat float := {
  lit := float_of_Q;
  add := PrimFloat.add;
  sub := PrimFloat.sub;
  mul := PrimFloat.mul;
  div := PrimFloat.div;
  eqb := PrimFloat.eqb;
  leb := PrimFloat.leb;
  ltb := PrimFloat.ltb
}.

(** ** Exact rationals *)

#[export] Instance Exact : PyFloat Q := {
  lit := fun q => q;
  add := Qplus;
  sub := Qminus;
  mul := Qmult;
  div := Qdiv;
  eqb := Qeq_bool;
  leb := Qle_bool;
  ltb := fun x y => negb (Qle_bool y x)
}.

(* ================================================================== *)
(** * Python dictionaries

    A [dict] keeps its keys in insertion order, and the function's result
    is read in that order, so a dictionary is the list of its items. *)

Definition dict (V : Type) : Type := list (string * V).

Fixpoint dict_get {V : Type} (d : dict V) (k : string) : result V :=
  match d with
  | [] => Raise (KeyError k)
  | (k', v) :: d' => if String.eqb k' k then Ok v else dict_get d' k
  end.

(** [d[k] = v]: an existing key keeps its place, a new one goes last. *)
Fixpoint dict_set {V : Type} (d : dict V) (k : string) (v : V) : dict V :=
  match d with
  | [] => [(k, v)]
  | (k', v') :: d' =>
      if String.eqb k' k then (k', v) :: d' else (k', v') :: dict_set d' k v
  end.

Definition dict_keys {V : Type} (d : dict V) : list string := map fst d.

(** [for x in items: body], threading the variables the body assigns. *)
Fixpoint for_each {A S : Type} (body : S -> A -> result S)
    (items : list A) (st : S) : result S :=
  match items with
  | [] => Ok st
  | x :: rest => bind (body st x) (for_each body rest)
  end.

(* ================================================================== *)
(** * calculate_fuel_costs_by_grade *)

Section Estimator.

Context {num : Type} `{PyFloat num}.

Open Scope string_scope.
Open Scope py_scope.

(** Lines 17-19: conversion factors. *)
Definition mpg_to_l_per_100km : num := lit 282.48.
Definition miles_to_km : num := lit 1.60934.

(** Lines 28-34: tyre grades and their RRC values. *)
Definition tyre_grades : dict num :=
  [ ("A", lit 6.5); ("B", lit 7.2); ("C", lit 8.4);
    ("D", lit 9.8); ("E", lit 11.0) ].

(** Line 37. *)
Definition fuel_savings_rate : num := lit 0.015.

(** The locals that lines 22-41 bind before the loop. *)
Record baseline : Type := {
  base_fuel_consumption_l_per_100km : num;
  fuel_price_pounds : num;
  base_fuel_per_year_l : num;
  base_fuel_cost : num
}.

Definition baseline_of (fuel_consumption_mpg annual_mileage fuel_price : num)
    : result baseline :=
  (* line 22 *)
  consumption <- mpg_to_l_per_100km / fuel_consumption_mpg ;;
  (* line 25 *)
  price <- fuel_price / lit 100 ;;
  (* line 40 *)
  per_km <- consumption / lit 100 ;;
  let per_year := per_km * (annual_mileage * miles_to_km) in
  (* line 41 *)
  Ok {| base_fuel_consumption_l_per_100km := consumption;
        fuel_price_pounds := price;
        base_fuel_per_year_l := per_year;
        base_fuel_cost := per_year * price |}.

(** Lines 47-68: one turn of the loop.  The state is the pair
    [(cost_differences, percentage_increase)]. *)
Definition loop_body (annual_mileage : num) (b : baseline)
    (st : dict num * dict num) (item : string * num)
    : result (dict num * dict num) :=
  let '(cost_differences, percentage_increase) := st in
  let '(grade, rrc) := item in
  if String.eqb grade "A" then Ok st (* continue *)
  else
    (* line 51 *)
    rrc_a <- dict_get tyre_grades "A" ;;
    ratio <- (rrc - rrc_a) / rrc_a ;;
    let rrc_increase_percentage := ratio * lit 100 in
    (* line 54 *)
    tenths <- rrc_increase_percentage / lit 10 ;;
    let fuel_increase_percentage := fuel_savings_rate * tenths in
    (* line 57 *)
    let new_fuel_consumption_l_per_100km :=
      base_fuel_consumption_l_per_100km b * (lit 1 + fuel_increase_percentage) in
    (* lines 60-61 *)
    per_km <- new_fuel_consumption_l_per_100km / lit 100 ;;
    let new_fuel_per_year_l := per_km * (annual_mileage * miles_to_km) in
    let new_fuel_cost := new_fuel_per_year_l * fuel_price_pounds b in
    (* lines 64-65 *)
    let cost_difference := new_fuel_cost - base_fuel_cost b in
    let cost_differences := dict_set cost_differences grade cost_difference in
    (* line 68 *)
    share <- cost_difference / base_fuel_cost b ;;
    let percentage_increase :=
      dict_set percentage_increase grade (share * lit 100) in
    Ok (cost_differences, percentage_increase).

Definition calculate_fuel_costs_by_grade
    (fuel_consumption_mpg annual_mileage fuel_price : num)
    : result (dict num * dict num) :=
  b <- baseline_of fuel_consumption_mpg annual_mileage fuel_price ;;
  (* lines 43-44 *)
  let cost_differences := [("A", lit 0.00)] in
  let percentage_increase := [("A", lit 0.00)] in
  (* lines 46-70 *)
  for_each (loop_body annual_mileage b) tyre_grades
    (cost_differences, percentage_increase).

End Estimator.

(* ================================================================== *)
(** * The values the function computes, as expressions

    Each local of the function as an expression in the inputs, with [div]
    where the source divides.  [calc_returns] below shows that these are
    the numbers the function stores whenever it returns. *)

Section Values.

Context {num : Type} `{PyFloat num}.

Open Scope string_scope.
Open Scope py_scope.

Definition consumption_value (fuel_consumption_mpg : num) : num :=
  div mpg_to_l_per_100km fuel_consumption_mpg.

Definition price_value (fuel_price : num) : num := div fuel_price (lit 100).

Definition fuel_per_year_value (consumption annual_mileage : num) : num :=
  div consumption (lit 100) * (annual_mileage * miles_to_km).

Definition base_fuel_cost_value (fe ad fp : num) : num :=
  fuel_per_year_value (consumption_value fe) ad * price_value fp.

Definition fuel_increase_value (rrc : num) : num :=
  fuel_savings_rate * div (div (rrc - lit 6.5) (lit 6.5) * lit 100) (lit 10).

Definition new_fuel_cost_value (fe ad fp rrc : num) : num :=
  fuel_per_year_value
    (consumption_value fe * (lit 1 + fuel_increase_value rrc)) ad
  * price_value fp.

Definition cost_difference_value (fe ad fp rrc : num) : num :=
  new_fuel_cost_value fe ad fp rrc - base_fuel_cost_value fe ad fp.

Definition percentage_increase_value (fe ad fp rrc : num) : num :=
  div (cost_difference_value fe ad fp rrc) (base_fuel_cost_value fe ad fp)
  * lit 100.

(** The two dictionaries of a call that returns. *)
Definition cost_differences_value (fe ad fp : num) : dict num :=
  [ ("A", lit 0.00);
    ("B", cost_difference_value fe ad fp (lit 7.2));
    ("C", cost_difference_value fe ad fp (lit 8.4));
    ("D", cost_difference_value fe ad fp (lit 9.8));
    ("E", cost_difference_value fe ad fp (lit 11.0)) ].

Definition percentage_increase_dict_value (fe ad fp : num) : dict num :=
  [ ("A", lit 0.00);
    ("B", percentage_increase_value fe ad fp (lit 7.2));
    ("C", percentage_increase_value fe ad fp (lit 8.4));
    ("D", percentage_increase_value fe ad fp (lit 9.8));
    ("E", percentage_increase_value fe ad fp (lit 11.0)) ].

(** The call divides by a variable twice: by the fuel economy at line 22
    and by the baseline cost at line 68. *)
Definition divides_by_zero (fe ad fp : num) : bool :=
  (fe == lit 0) || (base_fuel_cost_value fe ad fp == lit 0).

(** What the proofs ask of the arithmetic: the constants the source
    divides by are not zero, and a number above zero is not zero. *)
Definition lawful : Prop :=
  (lit 100 == lit 0) = false /\
  (lit 10 == lit 0) = false /\
  (lit 6.5 == lit 0) = false /\
  (forall x : num, (lit 0 <? x) = true -> (x == lit 0) = false).

(** ** Predicates of the claims *)

Definition is_positive (x : num) : bool := lit 0 <? x.
Definition is_nonpositive (x : num) : bool := x <=? lit 0.

(** [x] is [v] to within [tol]. *)
Definition approx (x v tol : num) : bool :=
  (v - tol <=? x) && (x <=? v + tol).

Fixpoint nondecreasing (l : list num) : bool :=
  match l with
  | x :: (y :: _) as rest => (x <=? y) && nondecreasing rest
  | _ => true
  end.

(** ** Reading the result of a call *)

Definition grades : list string := ["A"; "B"; "C"; "D"; "E"].
Definition non_baseline_grades : list string := ["B"; "C"; "D"; "E"].

Fixpoint lookups (d : dict num) (keys : list string) : result (list num) :=
  match keys with
  | [] => Ok []
  | k :: rest => v <- dict_get d k ;; vs <- lookups d rest ;; Ok (v :: vs)
  end.

(** [calculate_fuel_costs_by_grade(fe, ad, fp)[0][g]] and [...[1][g]]. *)
Definition absolute_delta (fe ad fp : num) (g : string) : result num :=
  r <- calculate_fuel_costs_by_grade fe ad fp ;; dict_get (fst r) g.

Definition percent_delta (fe ad fp : num) (g : string) : result num :=
  r <- calculate_fuel_costs_by_grade fe ad fp ;; dict_get (snd r) g.

(** The entries of each mapping, read in grade order A to E. *)
Definition absolute_deltas (fe ad fp : num) : result (list num) :=
  r <- calculate_fuel_costs_by_grade fe ad fp ;; lookups (fst r) grades.

Definition percent_deltas (fe ad fp : num) : result (list num) :=
  r <- calculate_fuel_costs_by_grade fe ad fp ;; lookups (snd r) grades.

End Values.

(* ================================================================== *)
(** * The algorithm of the specification

    Written from the specification's section 4.1, steps 1 to 6, with its
    names, over the same arithmetic. *)

Section SpecAlgorithm.

Context {num : Type} `{PyFloat num}.

Open Scope string_scope.
Open Scope py_scope.

Record CostResult : Type := {
  absoluteDelta : dict num;
  percentDelta : dict num
}.

Definition GradeTable : dict num :=
  [ ("A", lit 6.5); ("B", lit 7.2); ("C", lit 8.4);
    ("D", lit 9.8); ("E", lit 11.0) ].

(** Step 5 for one grade: its absolute and its percent delta. *)
Definition gradeDelta
    (baseConsumption annualDistanceKm priceMajorUnits baseCost rrc : num)
    : result (num * num) :=
  (* 5a, 5b *)
  increase <- (rrc - lit 6.5) / lit 6.5 ;;
  tenths <- (increase * lit 100) / lit 10 ;;
  let fuelIncreasePct := lit 0.015 * tenths in
  (* 5c *)
  let gradeConsumption := baseConsumption * (lit 1 + fuelIncreasePct) in
  (* 5d *)
  perUnit <- gradeConsumption / lit 100 ;;
  let gradeCost := (perUnit * annualDistanceKm) * priceMajorUnits in
  (* 5e *)
  let absolute := gradeCost - baseCost in
  (* 5f *)
  share <- absolute / baseCost ;;
  Ok (absolute, share * lit 100).

Fixpoint gradeDeltas (delta : num -> result (num * num)) (grades : dict num)
    : result (dict num * dict num) :=
  match grades with
  | [] => Ok ([], [])
  | (g, rrc) :: rest =>
      d <- delta rrc ;;
      ds <- gradeDeltas delta rest ;;
      Ok ((g, fst d) :: fst ds, (g, snd d) :: snd ds)
  end.

Definition estimate (fuelEconomy annualDistance fuelPrice : num)
    : result CostResult :=
  (* step 1 *)
  baseConsumption <- lit 282.48 / fuelEconomy ;;
  (* step 2 *)
  priceMajorUnits <- fuelPrice / lit 100 ;;
  (* step 3 *)
  let annualDistanceKm := annualDistance * lit 1.60934 in
  (* step 4 *)
  perUnit <- baseConsumption / lit 100 ;;
  let baseAnnualVolume := perUnit * annualDistanceKm in
  let baseCost := baseAnnualVolume * priceMajorUnits in
  (* step 5 *)
  others <-
    gradeDeltas
      (gradeDelta baseConsumption annualDistanceKm priceMajorUnits baseCost)
      (filter (fun g => negb (String.eqb (fst g) "A")) GradeTable) ;;
  (* step 6 *)
  Ok {| absoluteDelta := ("A", lit 0.00) :: fst others;
        percentDelta := ("A", lit 0.00) :: snd others |}.

End SpecAlgorithm.

(* ================================================================== *)
(** * The form's button handler (lines 84-89)

    Pressing the button calls the function and writes a heading and one
    line per key of [cost_differences].  What [st.write] has put on the
    page is the list of strings written so far; an exception ends the
    script run.  Python's [format(x, ".2f")] is a parameter. *)

Section Form.

Context {num : Type} `{PyFloat num}.

Variable format_2f : num -> string.

Open Scope string_scope.
Open Scope py_scope.

(** Line 87. *)
Definition heading : string :=
  String (Ascii.ascii_of_nat 10)
    "### Fuel cost differences by tyre grade (compared to A-rated tyres):".

(** The pound sign, as UTF-8. *)
Definition pound : string :=
  String (Ascii.ascii_of_nat 194) (String (Ascii.ascii_of_nat 163) "").

(** Line 89: the f-string. *)
Definition grade_line (grade : string) (cost pct : num) : string :=
  "**" ++ grade ++ "-rated:** " ++ pound ++ format_2f cost
  ++ " (+" ++ format_2f pct ++ "%)".

(** Lines 88-89: one turn of [for grade in cost_differences]. *)
Definition write_grade (cost_differences percentage_increase : dict num)
    (page : list string) (grade : string) : result (list string) :=
  cost <- dict_get cost_differences grade ;;
  pct <- dict_get percentage_increase grade ;;
  Ok (page ++ [grade_line grade cost pct])%list.

(** Lines 84-89. *)
Definition on_calculate (clicked : bool) (fe ad fp : num)
    (page : list string) : result (list string) :=
  if clicked then
    r <- calculate_fuel_costs_by_grade fe ad fp ;;
    let '(cost_differences, percentage_increase) := r in
    let page := (page ++ [heading])%list in
    for_each (write_grade cost_differences percentage_increase)
      (dict_keys cost_differences) page
  else Ok page.

End Form.

(** ** The handler with the page as state

    What [st.write] has written stays on the page when a later statement
    raises.  A step of the script therefore takes the page and gives back
    the page it leaves together with its outcome. *)

Definition script (A : Type) : Type := list string -> list string * result A.

Definition script_of {A : Type} (r : result A) : script A :=
  fun page => (page, r).

Definition st_write (s : string) : script unit :=
  fun page => ((page ++ [s])%list, Ok tt).

Definition script_bind {A B : Type} (c : script A) (k : A -> script B)
    : script B :=
  fun page =>
    match c page with
    | (page', Ok a) => k a page'
    | (page', Raise e) => (page', Raise e)
    end.

Fixpoint script_for {A : Type} (body : A -> script unit) (items : list A)
    : script unit :=
  match items with
  | [] => script_of (Ok tt)
  | x :: rest => script_bind (body x) (fun _ => script_for body rest)
  end.

Section FormScript.

Context {num : Type} `{PyFloat num}.

Variable format_2f : num -> string.

(** Lines 88-89: one turn of [for grade in cost_differences]. *)
Definition write_grade_line (cost_differences percentage_increase : dict num)
    (grade : string) : script unit :=
  script_bind (script_of (dict_get cost_differences grade)) (fun cost =>
  script_bind (script_of (dict_get percentage_increase grade)) (fun pct =>
  st_write (grade_line format_2f grade cost pct))).

(** Lines 84-89. *)
Definition press_button (clicked : bool) (fe ad fp : num) : script unit :=
  if clicked then
    script_bind (script_of (calculate_fuel_costs_by_grade fe ad fp)) (fun r =>
    let '(cost_differences, percentage_increase) := r in
    script_bind (st_write heading) (fun _ =>
    script_for (write_grade_line cost_differences percentage_increase)
      (dict_keys cost_differences)))
  else script_of (Ok tt).

End FormScript.

(** ** Further predicates *)

Section MorePredicates.

Context {num : Type} `{PyFloat num}.

Open Scope py_scope.

(** Python's test for NaN, [x != x]. *)
Definition is_nan (x : num) : bool := negb (x == x).

Fixpoint increasing (l : list num) : bool :=
  match l with
  | x :: (y :: _) as rest => (x <? y) && increasing rest
  | _ => true
  end.

(** No entry is NaN. *)
Definition no_nan (l : list num) : bool :=
  forallb (fun x => negb (is_nan x)) l.

End MorePredicates.

(* ================================================================== *)
(** * Rounding to binary64, as integer arithmetic

    The standard library specifies each binary64 operation on [spec_float]
    by shifting a mantissa bit by bit and rounding it to nearest, ties to
    even.  The definitions below say the same with quotients and
    remainders, so that the order of two results can be read off the order
    of the exact values.  They serve the proofs about the order of the
    deltas; the function itself computes with [float]. *)

Section RoundingModel.

Open Scope Z_scope.

(** A mantissa with its round and sticky bits, as the number
    [4 * m + 2 * r + s]. *)
Definition code (r : shr_record) : Z :=
  4 * shr_m r + 2 * Z.b2z (shr_r r) + Z.b2z (shr_s r).

(** One right shift of a coded mantissa. *)
Definition shift_code (c : Z) : Z :=
  2 * (c / 4) + (if c mod 4 =? 0 then 0 else 1).

(** The coded mantissa of [A / B] shifted right [k] times. *)
Definition rnd_code (A B k : Z) : Z :=
  2 * ((2 * A) / (B * 2 ^ k)) + (if (2 * A) mod (B * 2 ^ k) =? 0 then 0 else 1).

(** Round to nearest, ties to even, of a coded mantissa. *)
Definition rne (c : Z) : Z :=
  let m := c / 4 in
  if c mod 4 <=? 1 then m
  else if c mod 4 =? 2 then (if Z.even m then m else m + 1)
  else m + 1.

(** The number with rounded mantissa [k] at exponent [E]: a mantissa that
    reached [2 ^ prec] moves up one exponent, and an exponent above the
    largest overflows to infinity. *)
Definition finish (k E : Z) : spec_float :=
  if k =? 0 then S754_zero false
  else if k =? 2 ^ prec then
    (if E + 1 <=? emax - prec then S754_finite false (Z.to_pos (2 ^ (prec - 1))) (E + 1)
     else S754_infinity false)
  else if E <=? emax - prec then S754_finite false (Z.to_pos k) E
  else S754_infinity false.

(** [A / B * 2 ^ e] is given with at least the precision of its result. *)
Definition round_input (A B e : Z) : Prop :=
  0 <= A /\ 0 < B /\ e <= fexp prec emax (Zdigits2 (A / B) + e).

(** The binary64 number nearest to [A / B * 2 ^ e]. *)
Definition round_of (A B e : Z) : spec_float :=
  let E := fexp prec emax (Zdigits2 (A / B) + e) in
  finish (rne (rnd_code A B (E - e))) E.

(** [A1 / B1 * 2 ^ e1 <= A2 / B2 * 2 ^ e2]. *)
Definition val_le (A1 B1 e1 A2 B2 e2 : Z) : Prop :=
  A1 * B2 * 2 ^ (e1 - Z.min e1 e2) <= A2 * B1 * 2 ^ (e2 - Z.min e1 e2).

(** Where the remainder [r] of a division by [B] lies: nothing, below
    half, half, above half. *)
Definition remainder_code (B r : Z) : Z :=
  if r =? 0 then 0
  else match Z.compare (2 * r) B with Lt => 1 | Eq => 2 | Gt => 3 end.

(** The exponent at which [SFdiv] computes its quotient. *)
Definition div_exponent (m1 e1 m2 e2 : Z) : Z :=
  Z.min (fexp prec emax ((Zdigits2 m1 + e1) - (Zdigits2 m2 + e2))) (e1 - e2).

(** Zero, a positive number or infinity. *)
Definition nonneg (x : spec_float) : bool :=
  match x with
  | S754_zero false | S754_infinity false | S754_finite false _ _ => true
  | _ => false
  end.

Definition finite_pos (x : spec_float) : bool :=
  match x with
  | S754_finite false _ _ => true
  | _ => false
  end.

Definition nonneg_or_nan (x : spec_float) : bool :=
  match x with
  | S754_nan => true
  | _ => nonneg x
  end.

Definition SF_one : spec_float := S754_finite false 4503599627370496 (-52).

End RoundingModel.

(** [x <= y] in Python, for two floats that are zero, positive or
    infinite. *)
Definition ordered (x y : float) : Prop :=
  nonneg (Prim2SF x) = true /\ nonneg (Prim2SF y) = true /\
  PrimFloat.leb x y = true.


(* ================================================================== *)
(** * The function evaluated *)

Example run_defaults :
  calculate_fuel_costs_by_grade 40%float 12000%float 1.6%float =
  Ok ([ ("A", 0); ("B", 0.35249478008123347); ("C", 0.95677154593477098);
        ("D", 1.6617611060972344); ("E", 2.2660378719507683) ],
      [ ("A", 0); ("B", 1.6153846153846279); ("C", 4.384615384615393);
        ("D", 7.6153846153846319); ("E", 10.384615384615381) ])%string%float.
Proof. vm_compute. reflexivity. Qed.

(** The float read off a decimal agrees with the literal of the same
    spelling, for every constant of the source. *)
Example literals_agree :
  (lit 282.48 = 282.48 /\ lit 1.60934 = 1.60934 /\ lit 0.015 = 0.015 /\
   lit 6.5 = 6.5 /\ lit 7.2 = 7.2 /\ lit 8.4 = 8.4 /\ lit 9.8 = 9.8 /\
   lit 11.0 = 11.0 /\ lit 100 = 100 /\ lit 10 = 10 /\ lit 1 = 1 /\
   lit 0.00 = 0)%float.
Proof. vm_compute. repeat split. Qed.

(** A zero fuel economy stops the call at line 22. *)
Example run_zero_economy :
  calculate_fuel_costs_by_grade 0%float 12000%float 1.6%float
  = Raise ZeroDivisionError.
Proof. vm_compute. reflexivity. Qed.

(** Strictly positive inputs whose baseline cost underflows to 0.0 stop
    the call at line 68. *)
Example run_underflow :
  (is_positive 1e300 = true /\ is_positive 1e-300 = true /\
   is_positive 1 = true /\
   base_fuel_cost_value 1e300 1e-300 1 = 0 /\
   calculate_fuel_costs_by_grade 1e300 1e-300 1
   = Raise ZeroDivisionError)%float.
Proof. repeat split; vm_compute; reflexivity. Qed.

(** Negative mileage goes through unchecked and gives negative deltas. *)
Example run_negative_mileage :
  absolute_delta 40%float (-12000)%float 1.6%float "E"
  = Ok (-2.2660378719507683)%float.
Proof. vm_compute. reflexivity. Qed.

(* ================================================================== *)
(** * The shape of a call, for any arithmetic *)

Section Shape.

Context {num : Type} `{PyFloat num}.

Open Scope string_scope.
Open Scope py_scope.

Ltac unfold_program :=
  unfold divides_by_zero, calculate_fuel_costs_by_grade, baseline_of,
    loop_body, truediv, cost_differences_value,
    percentage_increase_dict_value, percentage_increase_value,
    cost_difference_value, new_fuel_cost_value, fuel_increase_value,
    base_fuel_cost_value, fuel_per_year_value, price_value,
    consumption_value, mpg_to_l_per_100km, miles_to_km,
    fuel_savings_rate in *.

(** The code and the specification's algorithm take the same steps in the
    same order: they agree on every input, also where a division fails. *)
Lemma calc_is_estimate (fe ad fp : num) :
  calculate_fuel_costs_by_grade fe ad fp =
  (r <- estimate fe ad fp ;; Ok (absoluteDelta r, percentDelta r)).
Proof.
  unfold estimate, gradeDelta. unfold_program.
  repeat (cbn -[lit];
          match goal with
          | |- context [eqb ?a ?b] => destruct (eqb a b) eqn:?
          end);
  cbn -[lit]; reflexivity.
Qed.

Lemma baseline_of_value (L : lawful) (fe ad fp : num) :
  (fe == lit 0) = false ->
  baseline_of fe ad fp =
  Ok {| base_fuel_consumption_l_per_100km := consumption_value fe;
        fuel_price_pounds := price_value fp;
        base_fuel_per_year_l := fuel_per_year_value (consumption_value fe) ad;
        base_fuel_cost := base_fuel_cost_value fe ad fp |}.
Proof.
  destruct L as (L100 & _). intros Hfe.
  unfold_program. rewrite Hfe, L100. reflexivity.
Qed.

Lemma calc_returns (L : lawful) (fe ad fp : num) :
  divides_by_zero fe ad fp = false ->
  calculate_fuel_costs_by_grade fe ad fp =
  Ok (cost_differences_value fe ad fp, percentage_increase_dict_value fe ad fp).
Proof.
  destruct L as (L100 & L10 & L65 & _). intros Hz.
  apply orb_false_elim in Hz. destruct Hz as [Hfe Hcost].
  unfold_program.
  repeat (progress (cbn -[lit]; rewrite ?Hfe, ?L100, ?L65, ?L10, ?Hcost)).
  reflexivity.
Qed.

Lemma calc_raises (L : lawful) (fe ad fp : num) :
  divides_by_zero fe ad fp = true ->
  calculate_fuel_costs_by_grade fe ad fp = Raise ZeroDivisionError.
Proof.
  destruct L as (L100 & L10 & L65 & _). intros Hz.
  unfold_program.
  destruct (fe == lit 0) eqn:Hfe; [reflexivity|]. cbn -[lit] in Hz |- *.
  repeat (progress (cbn -[lit]; rewrite ?L100, ?L65, ?L10)).
  rewrite Hz. reflexivity.
Qed.

(** Every call ends one of two ways. *)
Lemma calc_outcome (L : lawful) (fe ad fp : num) :
  calculate_fuel_costs_by_grade fe ad fp =
  if divides_by_zero fe ad fp then Raise ZeroDivisionError
  else Ok (cost_differences_value fe ad fp,
           percentage_increase_dict_value fe ad fp).
Proof.
  destruct (divides_by_zero fe ad fp) eqn:Hz.
  - apply calc_raises; assumption.
  - apply calc_returns; assumption.
Qed.

Lemma calc_ok_inv (L : lawful) (fe ad fp : num) (cd pi : dict num) :
  calculate_fuel_costs_by_grade fe ad fp = Ok (cd, pi) ->
  divides_by_zero fe ad fp = false /\
  cd = cost_differences_value fe ad fp /\
  pi = percentage_increase_dict_value fe ad fp.
Proof.
  rewrite (calc_outcome L).
  destruct (divides_by_zero fe ad fp); [discriminate|].
  intros E. injection E as <- <-. repeat split.
Qed.

Lemma positive_divides_by_zero (L : lawful) (fe ad fp : num) :
  is_positive fe = true ->
  divides_by_zero fe ad fp = (base_fuel_cost_value fe ad fp == lit 0).
Proof.
  destruct L as (_ & _ & _ & Lpos). intros Hfe.
  unfold divides_by_zero. rewrite (Lpos fe Hfe). reflexivity.
Qed.

Lemma loop_skips_baseline (ad : num) (b : baseline)
    (st : dict num * dict num) (rrc : num) :
  loop_body ad b st ("A", rrc) = Ok st.
Proof. destruct st. reflexivity. Qed.

End Shape.

(* ================================================================== *)
(** * The two arithmetics are lawful *)

Lemma float_positive_nonzero (x : float) :
  PrimFloat.ltb 0 x = true -> PrimFloat.eqb x 0 = false.
Proof.
  rewrite FloatAxioms.ltb_spec, FloatAxioms.eqb_spec.
  change (Prim2SF 0) with (S754_zero false).
  destruct (Prim2SF x) as [s | s | | s m e]; try destruct s; cbn; congruence.
Qed.

Lemma Binary64_lawful : lawful (num := float).
Proof.
  repeat split; try reflexivity.
  intros x. apply float_positive_nonzero.
Qed.

Lemma Exact_positive (x : Q) : is_positive x = true <-> 0 < x.
Proof.
  unfold is_positive. cbn. rewrite negb_true_iff. split.
  - intros E. apply Qnot_le_lt. intros Hle.
    apply Qle_bool_iff in Hle. congruence.
  - intros Hlt. destruct (Qle_bool x 0) eqn:E; [|reflexivity].
    apply Qle_bool_iff in E. exfalso. apply (Qlt_not_le _ _ Hlt E).
Qed.

Lemma Exact_nonzero (x : Q) : ~ x == 0 -> eqb x (lit 0) = false.
Proof.
  intros Hx. cbn. destruct (Qeq_bool x 0) eqn:E; [|reflexivity].
  apply Qeq_bool_iff in E. contradiction.
Qed.

Lemma Exact_lawful : lawful (num := Q).
Proof.
  repeat split; try reflexivity.
  intros x Hx. apply Exact_positive in Hx. apply Exact_nonzero.
  intros E. rewrite E in Hx. apply (Qlt_irrefl _ Hx).
Qed.

(* ================================================================== *)
(** * Claims settled on the code as it is written *)

Section Refinement.

Context {num : Type} `{PyFloat num}.

Open Scope py_scope.

(** C1. For every input whose three values are strictly positive, the
    function computes exactly what the algorithm of the specification
    computes: consumption 282.48 / fuelEconomy, price / 100, distance *
    1.60934, and for each grade other than A the increase
    0.015 * (((rrc - 6.5) / 6.5 * 100) / 10), the grade's consumption, cost,
    absolute delta and percent delta, over the table A=6.5 ... E=11.0.
    This holds in any arithmetic, binary64 included. *)
Theorem calculate_follows_spec_algorithm (fe ad fp : num) :
  is_positive fe = true -> is_positive ad = true -> is_positive fp = true ->
  calculate_fuel_costs_by_grade fe ad fp =
  (r <- estimate fe ad fp ;; Ok (absoluteDelta r, percentDelta r)).
Proof. intros _ _ _. apply calc_is_estimate. Qed.

End Refinement.

Lemma calculate_follows_spec_algorithm_witness :
  is_positive 40%float = true /\
  calculate_fuel_costs_by_grade 40%float 12000%float 1.6%float =
  bind (estimate 40%float 12000%float 1.6%float)
       (fun r => Ok (absoluteDelta r, percentDelta r)).
Proof.
  split; [reflexivity|].
  apply (calculate_follows_spec_algorithm 40%float 12000%float 1.6%float);
    reflexivity.
Defined.

Section Binary64Claims.

Open Scope string_scope.
Open Scope float_scope.

(** C2, as stated, fails: a negative mileage is not rejected, the call
    returns. *)
Lemma nonpositive_input_returns :
  is_nonpositive (-12000) = true /\
  returns (calculate_fuel_costs_by_grade 40 (-12000) 1.6) = true /\
  calculate_fuel_costs_by_grade 40 (-12000) 1.6 <> Raise InvalidInput.
Proof. repeat split; vm_compute; congruence. Qed.

(** C2, amended.  The function does not check its inputs and never fails
    with [InvalidInput].  For an input with a value at or below zero it
    raises [ZeroDivisionError] if the fuel economy or the computed baseline
    cost equals zero, and returns a result otherwise. *)
Theorem nonpositive_input_not_rejected (fe ad fp : float) :
  is_nonpositive fe = true \/ is_nonpositive ad = true \/
  is_nonpositive fp = true ->
  calculate_fuel_costs_by_grade fe ad fp <> Raise InvalidInput /\
  (divides_by_zero fe ad fp = true ->
   calculate_fuel_costs_by_grade fe ad fp = Raise ZeroDivisionError) /\
  (divides_by_zero fe ad fp = false -> returns (calculate_fuel_costs_by_grade fe ad fp) = true).
Proof.
  intros _. rewrite (calc_outcome Binary64_lawful).
  destruct (divides_by_zero fe ad fp); repeat split; congruence.
Qed.

Lemma nonpositive_input_not_rejected_witness :
  is_nonpositive (-12000) = true /\
  calculate_fuel_costs_by_grade 40 (-12000) 1.6 <> Raise InvalidInput.
Proof.
  split; [reflexivity|].
  apply (nonpositive_input_not_rejected 40 (-12000) 1.6).
  right; left; reflexivity.
Defined.

(** C3, as stated, fails at fuelEconomy = 40.0, annualDistance = 12000,
    fuelPrice = 1.60: the consumption is 7.062 as stated, but the annual
    volume is not within 0.1 of 1365.1, the cost is not within 1 of 2184.2,
    and the grade E percent delta is not within 0.1 of 0.675. *)
Lemma default_scenario_not_as_stated :
  exists b e,
    baseline_of 40 12000 1.6 = Ok b /\
    percent_delta 40 12000 1.6 "E" = Ok e /\
    approx (base_fuel_consumption_l_per_100km b) 7.062 0.0005 = true /\
    approx (base_fuel_per_year_l b) 1365.1 0.1 = false /\
    approx (base_fuel_cost b) 2184.2 1 = false /\
    approx e 0.675 0.1 = false.
Proof.
  eexists; eexists.
  split; [vm_compute; reflexivity|].
  split; [vm_compute; reflexivity|].
  vm_compute. repeat split.
Qed.

(** C3, amended.  At fuelEconomy = 40.0, annualDistance = 12000,
    fuelPrice = 1.60 the baseline consumption is 7.062 L/100km, the
    baseline annual volume 1363.82 L, the baseline annual cost 21.82 (the
    price is divided by 100 first; a price of 160 gives 2182.11), and the
    grade E percent delta 10.385. *)
Theorem default_scenario_values :
  exists b e b',
    baseline_of 40 12000 1.6 = Ok b /\
    percent_delta 40 12000 1.6 "E" = Ok e /\
    baseline_of 40 12000 160 = Ok b' /\
    approx (base_fuel_consumption_l_per_100km b) 7.062 0.0005 = true /\
    approx (base_fuel_per_year_l b) 1363.82 0.005 = true /\
    approx (base_fuel_cost b) 21.82 0.005 = true /\
    approx e 10.385 0.0005 = true /\
    approx (base_fuel_cost b') 2182.11 0.005 = true.
Proof.
  do 3 eexists.
  split; [vm_compute; reflexivity|].
  split; [vm_compute; reflexivity|].
  split; [vm_compute; reflexivity|].
  vm_compute. repeat split.
Qed.

(** C7. For every input whose three values are strictly positive, the
    baseline entries of both returned mappings are exactly 0.00, and they
    are set directly: the loop skips grade A.  The call returns whenever
    the computed baseline cost is not zero. *)
Theorem baseline_entries_are_zero (fe ad fp : float) :
  is_positive fe = true -> is_positive ad = true -> is_positive fp = true ->
  (forall cd pi,
     calculate_fuel_costs_by_grade fe ad fp = Ok (cd, pi) ->
     dict_get cd "A" = Ok (lit 0.00) /\ dict_get pi "A" = Ok (lit 0.00)) /\
  ((base_fuel_cost_value fe ad fp == lit 0)%py = false ->
   returns (calculate_fuel_costs_by_grade fe ad fp) = true) /\
  (forall b st rrc, loop_body ad b st ("A", rrc) = Ok st).
Proof.
  intros Hfe _ _. split; [|split].
  - intros cd pi E.
    apply (calc_ok_inv Binary64_lawful) in E. destruct E as (_ & -> & ->).
    split; reflexivity.
  - intros Hcost. rewrite (calc_returns Binary64_lawful); [reflexivity|].
    rewrite (positive_divides_by_zero Binary64_lawful) by assumption.
    assumption.
  - intros b st rrc. apply loop_skips_baseline.
Qed.

Lemma baseline_entries_are_zero_witness :
  exists cd pi,
    calculate_fuel_costs_by_grade 40 12000 1.6 = Ok (cd, pi) /\
    dict_get cd "A" = Ok 0 /\ dict_get pi "A" = Ok 0.
Proof.
  destruct (baseline_entries_are_zero 40 12000 1.6 eq_refl eq_refl eq_refl)
    as (Hentries & _).
  eexists; eexists. split; [vm_compute; reflexivity|].
  apply Hentries. vm_compute. reflexivity.
Defined.

(** C8. For every input whose three values are strictly positive, each of
    the two returned mappings has exactly the keys A, B, C, D, E, in that
    insertion order.  The call returns whenever the computed baseline cost
    is not zero. *)
Theorem result_keys_in_grade_order (fe ad fp : float) :
  is_positive fe = true -> is_positive ad = true -> is_positive fp = true ->
  (forall cd pi,
     calculate_fuel_costs_by_grade fe ad fp = Ok (cd, pi) ->
     dict_keys cd = ["A"; "B"; "C"; "D"; "E"] /\
     dict_keys pi = ["A"; "B"; "C"; "D"; "E"]) /\
  ((base_fuel_cost_value fe ad fp == lit 0)%py = false ->
   returns (calculate_fuel_costs_by_grade fe ad fp) = true).
Proof.
  intros Hfe _ _. split.
  - intros cd pi E.
    apply (calc_ok_inv Binary64_lawful) in E. destruct E as (_ & -> & ->).
    split; reflexivity.
  - intros Hcost. rewrite (calc_returns Binary64_lawful); [reflexivity|].
    rewrite (positive_divides_by_zero Binary64_lawful) by assumption.
    assumption.
Qed.

Lemma result_keys_in_grade_order_witness :
  exists cd pi,
    calculate_fuel_costs_by_grade 40 12000 1.6 = Ok (cd, pi) /\
    dict_keys cd = ["A"; "B"; "C"; "D"; "E"] /\
    dict_keys pi = ["A"; "B"; "C"; "D"; "E"].
Proof.
  destruct (result_keys_in_grade_order 40 12000 1.6 eq_refl eq_refl eq_refl)
    as (Hkeys & _).
  eexists; eexists. split; [vm_compute; reflexivity|].
  apply Hkeys. vm_compute. reflexivity.
Defined.

(** C9, as stated, fails: with a non-zero fuel economy and a zero mileage
    the call does not return; line 68 divides by the baseline cost 0. *)
Lemma zero_mileage_raises :
  (40 == lit 0)%py = false /\
  (exists b, baseline_of 40 0 1.6 = Ok b /\ base_fuel_cost b = 0) /\
  calculate_fuel_costs_by_grade 40 0 1.6 = Raise ZeroDivisionError.
Proof.
  split; [reflexivity|]. split; [|vm_compute; reflexivity].
  eexists. split; vm_compute; reflexivity.
Qed.

(** C9, amended.  The function validates nothing and raises only
    [ZeroDivisionError], exactly when it divides by zero: when the fuel
    economy equals zero (line 22) or the computed baseline cost equals zero
    (line 68).  On every other input, negative ones included, it returns
    the two mappings. *)
Theorem fails_exactly_on_division_by_zero (fe ad fp : float) :
  calculate_fuel_costs_by_grade fe ad fp =
  if ((fe == lit 0) || (base_fuel_cost_value fe ad fp == lit 0))%py
  then Raise ZeroDivisionError
  else Ok (cost_differences_value fe ad fp,
           percentage_increase_dict_value fe ad fp).
Proof. apply (calc_outcome Binary64_lawful). Qed.

End Binary64Claims.

(* ================================================================== *)
(** * The algebraic laws, in exact arithmetic

    Over the rationals a call with strictly positive inputs always
    returns, and the values it stores obey the laws that the
    specification states. *)

Section ExactClaims.
Open Scope string_scope.
Open Scope Q_scope.

Ltac lookup :=
  cbn [dict_get lookups bind fst snd String.eqb Ascii.eqb Bool.eqb grades];
  reflexivity.

Ltac exact_arith :=
  unfold percentage_increase_value, cost_difference_value, new_fuel_cost_value,
    fuel_increase_value, base_fuel_cost_value, fuel_per_year_value,
    price_value, consumption_value, mpg_to_l_per_100km, miles_to_km,
    fuel_savings_rate in *;
  cbn [lit add sub mul div Exact] in *.

Lemma Exact_base_cost_positive (fe ad fp : Q) :
  0 < fe -> 0 < ad -> 0 < fp -> 0 < base_fuel_cost_value fe ad fp.
Proof.
  intros Hfe Had Hfp. exact_arith.
  assert (0 < / fe) by (apply Qinv_lt_0_compat; assumption).
  unfold Qdiv.
  repeat apply Qmult_lt_0_compat; try assumption; reflexivity.
Qed.

Lemma Exact_positive_nonzero (x : Q) : 0 < x -> ~ x == 0.
Proof. intros Hx E. rewrite E in Hx. apply (Qlt_irrefl _ Hx). Qed.

Lemma Exact_calc_returns (fe ad fp : Q) :
  is_positive fe = true -> is_positive ad = true -> is_positive fp = true ->
  calculate_fuel_costs_by_grade fe ad fp =
  Ok (cost_differences_value fe ad fp, percentage_increase_dict_value fe ad fp).
Proof.
  intros Hfe Had Hfp. apply (calc_returns Exact_lawful).
  rewrite (positive_divides_by_zero Exact_lawful) by assumption.
  apply Exact_nonzero, Exact_positive_nonzero, Exact_base_cost_positive;
    apply Exact_positive; assumption.
Qed.

Lemma Exact_cost_difference (fe ad fp rrc : Q) :
  0 < fe ->
  cost_difference_value fe ad fp rrc ==
  base_fuel_cost_value fe ad fp * fuel_increase_value rrc.
Proof.
  intros Hfe. exact_arith. field. apply Exact_positive_nonzero, Hfe.
Qed.

Lemma Exact_percentage (fe ad fp rrc : Q) :
  0 < fe -> 0 < ad -> 0 < fp ->
  percentage_increase_value fe ad fp rrc == fuel_increase_value rrc * 100.
Proof.
  intros Hfe Had Hfp. exact_arith. field.
  repeat split; apply Exact_positive_nonzero; assumption.
Qed.

Lemma Exact_base_cost_scales_price (fe ad fp k : Q) :
  0 < fe ->
  base_fuel_cost_value fe ad (fp * k) == k * base_fuel_cost_value fe ad fp.
Proof.
  intros Hfe. exact_arith. field. apply Exact_positive_nonzero, Hfe.
Qed.

Lemma Exact_base_cost_scales_distance (fe ad fp k : Q) :
  0 < fe ->
  base_fuel_cost_value fe (ad * k) fp == k * base_fuel_cost_value fe ad fp.
Proof.
  intros Hfe. exact_arith. field. apply Exact_positive_nonzero, Hfe.
Qed.

Lemma Exact_positive_mul (x k : Q) :
  is_positive x = true -> is_positive k = true -> is_positive (x * k) = true.
Proof.
  rewrite !Exact_positive. apply Qmult_lt_0_compat.
Qed.

(** C5, amended.  In exact arithmetic: for every strictly positive input
    and every positive factor k, the call at fuelPrice * k returns, for
    every grade other than A, an absolute delta equal to k times the
    original one and a percent delta equal to the original one. *)
Theorem price_scaling_exact (fe ad fp k : Q) :
  is_positive fe = true -> is_positive ad = true -> is_positive fp = true ->
  is_positive k = true ->
  forall g, In g non_baseline_grades ->
  exists a a' p p',
    absolute_delta fe ad fp g = Ok a /\
    absolute_delta fe ad (fp * k) g = Ok a' /\
    a' == k * a /\
    percent_delta fe ad fp g = Ok p /\
    percent_delta fe ad (fp * k) g = Ok p' /\
    p' == p.
Proof.
  intros Hfe Had Hfp Hk g Hg.
  pose proof (Exact_positive_mul _ _ Hfp Hk) as Hfpk.
  unfold absolute_delta, percent_delta.
  rewrite !Exact_calc_returns by assumption.
  apply Exact_positive in Hfe, Had, Hfp, Hk, Hfpk.
  unfold cost_differences_value, percentage_increase_dict_value.
  cbn [bind fst snd].
  cbn in Hg.
  destruct Hg as [<- | [<- | [<- | [<- | []]]]];
    (do 4 eexists;
     split; [lookup|]; split; [lookup|]; split;
     [|split; [lookup|]; split; [lookup|]]);
    rewrite ?Exact_cost_difference, ?Exact_percentage,
      ?Exact_base_cost_scales_price by assumption; ring.
Qed.

(** C6, amended.  In exact arithmetic: for every strictly positive input
    and every positive factor k, the call at annualDistance * k returns,
    for every grade, an absolute delta equal to k times the original one
    and a percent delta equal to the original one. *)
Theorem distance_scaling_exact (fe ad fp k : Q) :
  is_positive fe = true -> is_positive ad = true -> is_positive fp = true ->
  is_positive k = true ->
  forall g, In g grades ->
  exists a a' p p',
    absolute_delta fe ad fp g = Ok a /\
    absolute_delta fe (ad * k) fp g = Ok a' /\
    a' == k * a /\
    percent_delta fe ad fp g = Ok p /\
    percent_delta fe (ad * k) fp g = Ok p' /\
    p' == p.
Proof.
  intros Hfe Had Hfp Hk g Hg.
  pose proof (Exact_positive_mul _ _ Had Hk) as Hadk.
  unfold absolute_delta, percent_delta.
  rewrite !Exact_calc_returns by assumption.
  apply Exact_positive in Hfe, Had, Hfp, Hk, Hadk.
  unfold cost_differences_value, percentage_increase_dict_value.
  cbn [bind fst snd].
  cbn in Hg.
  destruct Hg as [<- | [<- | [<- | [<- | [<- | []]]]]];
    (do 4 eexists;
     split; [lookup|]; split; [lookup|]; split;
     [|split; [lookup|]; split; [lookup|]]);
    rewrite ?Exact_cost_difference, ?Exact_percentage,
      ?Exact_base_cost_scales_distance by assumption;
    cbn [lit Exact]; ring.
Qed.

Lemma Exact_fuel_increase_order :
  0 <= fuel_increase_value (num := Q) 7.2 /\
  fuel_increase_value (num := Q) 7.2 <= fuel_increase_value 8.4 /\
  fuel_increase_value (num := Q) 8.4 <= fuel_increase_value 9.8 /\
  fuel_increase_value (num := Q) 9.8 <= fuel_increase_value 11.0.
Proof. repeat split; vm_compute; discriminate. Qed.

Lemma Exact_cost_difference_le (fe ad fp r1 r2 : Q) :
  0 < fe -> 0 < ad -> 0 < fp ->
  fuel_increase_value r1 <= fuel_increase_value r2 ->
  cost_difference_value fe ad fp r1 <= cost_difference_value fe ad fp r2.
Proof.
  intros Hfe Had Hfp Hle.
  rewrite !Exact_cost_difference by assumption.
  apply Qmult_le_l; [|assumption].
  apply Exact_base_cost_positive; assumption.
Qed.

Lemma Exact_cost_difference_nonneg (fe ad fp r : Q) :
  0 < fe -> 0 < ad -> 0 < fp ->
  0 <= fuel_increase_value r ->
  0 <= cost_difference_value fe ad fp r.
Proof.
  intros Hfe Had Hfp Hle.
  rewrite Exact_cost_difference by assumption.
  apply Qmult_le_0_compat; [|assumption].
  apply Qlt_le_weak, Exact_base_cost_positive; assumption.
Qed.

Lemma Exact_percentage_le (fe ad fp r1 r2 : Q) :
  0 < fe -> 0 < ad -> 0 < fp ->
  fuel_increase_value r1 <= fuel_increase_value r2 ->
  percentage_increase_value fe ad fp r1 <= percentage_increase_value fe ad fp r2.
Proof.
  intros Hfe Had Hfp Hle.
  rewrite !Exact_percentage by assumption.
  apply Qmult_le_r; [reflexivity | assumption].
Qed.

Lemma Exact_percentage_nonneg (fe ad fp r : Q) :
  0 < fe -> 0 < ad -> 0 < fp ->
  0 <= fuel_increase_value r ->
  0 <= percentage_increase_value fe ad fp r.
Proof.
  intros Hfe Had Hfp Hle.
  rewrite Exact_percentage by assumption.
  apply Qmult_le_0_compat; [assumption | discriminate].
Qed.

(** The order of the deltas without rounding.  In exact arithmetic: for
    every strictly positive input the call returns, and both mappings,
    read in the order A, B, C, D, E, are non-decreasing. *)
Lemma deltas_nondecreasing_exact (fe ad fp : Q) :
  is_positive fe = true -> is_positive ad = true -> is_positive fp = true ->
  exists vs ps,
    absolute_deltas fe ad fp = Ok vs /\
    percent_deltas fe ad fp = Ok ps /\
    nondecreasing vs = true /\ nondecreasing ps = true.
Proof.
  intros Hfe Had Hfp.
  unfold absolute_deltas, percent_deltas.
  rewrite !Exact_calc_returns by assumption.
  apply Exact_positive in Hfe, Had, Hfp.
  destruct Exact_fuel_increase_order as (HB & HBC & HCD & HDE).
  unfold cost_differences_value, percentage_increase_dict_value.
  do 2 eexists. split; [lookup|]. split; [lookup|].
  cbn [nondecreasing leb Exact lit].
  rewrite !andb_true_iff, !Qle_bool_iff.
  assert (Hzero : forall x : Q, 0 <= x -> 0.00 <= x)
    by (intros x Hx; apply Qle_trans with 0; [discriminate | assumption]).
  repeat split;
    match goal with
    | |- _ <= cost_difference_value _ _ _ 7.2 =>
        apply Hzero, Exact_cost_difference_nonneg
    | |- _ <= percentage_increase_value _ _ _ 7.2 =>
        apply Hzero, Exact_percentage_nonneg
    | |- cost_difference_value _ _ _ _ <= _ =>
        apply Exact_cost_difference_le
    | |- percentage_increase_value _ _ _ _ <= _ =>
        apply Exact_percentage_le
    end; assumption.
Qed.

Lemma Exact_approx_compat (x y v tol : Q) :
  x == y -> approx x v tol = approx y v tol.
Proof.
  intros E. unfold approx. cbn [leb add sub Exact]. rewrite E. reflexivity.
Qed.

Lemma Exact_percent_constants :
  approx (fuel_increase_value (num := Q) 7.2 * 100) 1.615 0.0005 = true /\
  approx (fuel_increase_value (num := Q) 8.4 * 100) 4.385 0.0005 = true /\
  approx (fuel_increase_value (num := Q) 9.8 * 100) 7.615 0.0005 = true /\
  approx (fuel_increase_value (num := Q) 11.0 * 100) 10.385 0.0005 = true.
Proof. repeat split. Qed.

(** C10, amended.  In exact arithmetic: for any two strictly positive
    inputs and every grade the two percent deltas are equal; for a grade
    other than A the value is 0.015 * (((rrc - 6.5) / 6.5 * 100) / 10) * 100,
    which depends on the grade table and the coefficient alone, and is
    1.615, 4.385, 7.615 and 10.385 for B, C, D and E, to three decimals. *)
Theorem percent_delta_input_independent_exact (fe1 ad1 fp1 fe2 ad2 fp2 : Q) :
  is_positive fe1 = true -> is_positive ad1 = true ->
  is_positive fp1 = true ->
  is_positive fe2 = true -> is_positive ad2 = true ->
  is_positive fp2 = true ->
  (forall g rrc, In (g, rrc) tyre_grades ->
   exists p1 p2,
     percent_delta fe1 ad1 fp1 g = Ok p1 /\
     percent_delta fe2 ad2 fp2 g = Ok p2 /\
     p1 == p2 /\
     (g <> "A" -> p1 == fuel_increase_value rrc * 100)) /\
  (exists pB pC pD pE,
     percent_delta fe1 ad1 fp1 "B" = Ok pB /\
     percent_delta fe1 ad1 fp1 "C" = Ok pC /\
     percent_delta fe1 ad1 fp1 "D" = Ok pD /\
     percent_delta fe1 ad1 fp1 "E" = Ok pE /\
     approx pB 1.615 0.0005 = true /\ approx pC 4.385 0.0005 = true /\
     approx pD 7.615 0.0005 = true /\ approx pE 10.385 0.0005 = true).
Proof.
  intros Hfe1 Had1 Hfp1 Hfe2 Had2 Hfp2.
  unfold percent_delta.
  rewrite !Exact_calc_returns by assumption.
  apply Exact_positive in Hfe1, Had1, Hfp1, Hfe2, Had2, Hfp2.
  unfold percentage_increase_dict_value. cbn [bind fst snd].
  split.
  - intros g rrc Hg. cbn in Hg.
    destruct Hg as [E | [E | [E | [E | [E | []]]]]];
      injection E as <- <-;
      (do 2 eexists; split; [lookup|]; split; [lookup|]);
      (split; [|intros Hne; try congruence]);
      rewrite ?Exact_percentage by assumption; cbn [lit Exact];
      apply Qeq_refl.
  - destruct Exact_percent_constants as (HB & HC & HD & HE).
    do 4 eexists. repeat (split; [lookup|]).
    repeat split;
      (erewrite Exact_approx_compat; [|apply Exact_percentage; assumption]);
      assumption.
Qed.

Lemma percent_delta_input_independent_exact_witness :
  exists p1 p2,
    percent_delta 40 12000 1.6 "B" = Ok p1 /\
    percent_delta 50 10000 1.5 "B" = Ok p2 /\
    p1 == p2.
Proof.
  destruct (percent_delta_input_independent_exact 40 12000 1.6 50 10000 1.5
              eq_refl eq_refl eq_refl eq_refl eq_refl eq_refl) as [Hsame _].
  destruct (Hsame "B" 7.2 (or_intror (or_introl eq_refl)))
    as (p1 & p2 & E1 & E2 & Heq & _).
  exists p1, p2. repeat split; assumption.
Defined.

Lemma price_scaling_exact_witness :
  exists a a',
    absolute_delta 40 12000 1.6 "B" = Ok a /\
    absolute_delta 40 12000 (1.6 * 10) "B" = Ok a' /\
    a' == 10 * a.
Proof.
  destruct (price_scaling_exact 40 12000 1.6 10
              eq_refl eq_refl eq_refl eq_refl "B" (or_introl eq_refl))
    as (a & a' & p & p' & E1 & E2 & Heq & _).
  exists a, a'. repeat split; assumption.
Defined.

Lemma distance_scaling_exact_witness :
  exists a a',
    absolute_delta 40 12000 1.6 "B" = Ok a /\
    absolute_delta 40 (12000 * 10) 1.6 "B" = Ok a' /\
    a' == 10 * a.
Proof.
  destruct (distance_scaling_exact 40 12000 1.6 10
              eq_refl eq_refl eq_refl eq_refl "B"
              (or_intror (or_introl eq_refl)))
    as (a & a' & p & p' & E1 & E2 & Heq & _).
  exists a, a'. repeat split; assumption.
Defined.

End ExactClaims.

(* ================================================================== *)
(** * The same laws in binary64

    Evaluated as CPython evaluates it, the function rounds after every
    operation and can overflow: the laws above then hold only up to
    rounding, and not at all once an intermediate product is infinite. *)

Section Binary64Rounding.

Open Scope string_scope.
Open Scope float_scope.

(** C4, as stated, fails: with an annual distance of 1.2e308 miles the
    conversion to kilometres overflows, the baseline cost is infinite, and
    every delta other than A's is infinity - infinity = NaN, which is not
    ordered with anything. *)
Lemma deltas_not_ordered_on_overflow :
  is_positive 40 = true /\ is_positive 1.2e308 = true /\
  is_positive 1.6 = true /\
  absolute_deltas 40 1.2e308 1.6 = Ok [0; nan; nan; nan; nan] /\
  percent_deltas 40 1.2e308 1.6 = Ok [0; nan; nan; nan; nan] /\
  nondecreasing [0; nan; nan; nan; nan] = false.
Proof. repeat split; vm_compute; reflexivity. Qed.

(** C5, as stated, fails: from a price of 1.6 to 1.6 * 10 the absolute
    delta of grade B is not 10 times the original one, and the percent
    delta changes, both in the last digits. *)
Lemma price_scaling_rounds :
  is_positive 10 = true /\
  absolute_delta 40 12000 1.6 "B" = Ok 0.35249478008123347 /\
  absolute_delta 40 12000 (1.6 * 10) "B" = Ok 3.5249478008123276 /\
  (3.5249478008123276 == 10 * 0.35249478008123347)%py = false /\
  percent_delta 40 12000 1.6 "B" = Ok 1.6153846153846279 /\
  percent_delta 40 12000 (1.6 * 10) "B" = Ok 1.6153846153846245 /\
  (1.6153846153846245 == 1.6153846153846279)%py = false.
Proof. repeat split; vm_compute; reflexivity. Qed.

(** C6, as stated, fails: from 12000 miles to 12000 * 10 the absolute
    delta of grade B is not 10 times the original one, and the percent
    delta changes, both in the last digits. *)
Lemma distance_scaling_rounds :
  is_positive 10 = true /\
  absolute_delta 40 12000 1.6 "B" = Ok 0.35249478008123347 /\
  absolute_delta 40 (12000 * 10) 1.6 "B" = Ok 3.5249478008123276 /\
  (3.5249478008123276 == 10 * 0.35249478008123347)%py = false /\
  percent_delta 40 12000 1.6 "B" = Ok 1.6153846153846279 /\
  percent_delta 40 (12000 * 10) 1.6 "B" = Ok 1.6153846153846245 /\
  (1.6153846153846245 == 1.6153846153846279)%py = false.
Proof. repeat split; vm_compute; reflexivity. Qed.

(** C10, as stated, fails: the percent delta of grade B differs between
    a fuel economy of 40 and one of 50, in the last digits. *)
Lemma percent_delta_varies_with_input :
  is_positive 50 = true /\
  percent_delta 40 12000 1.6 "B" = Ok 1.6153846153846279 /\
  percent_delta 50 12000 1.6 "B" = Ok 1.615384615384599 /\
  (1.6153846153846279 == 1.615384615384599)%py = false.
Proof. repeat split; vm_compute; reflexivity. Qed.

End Binary64Rounding.

(* ================================================================== *)
(** * Rounding is monotone

    The operations of the standard library's binary64 specification,
    rewritten over the integer model above, and the order of their
    results. *)

Section RoundingProofs.

Open Scope Z_scope.


(* ---------- iteration ---------- *)
Lemma iter_pos_nat {A : Type} (f : A -> A) (p : positive) (x : A) :
  iter_pos f p x = Nat.iter (Pos.to_nat p) f x.
Proof.
  revert x. induction p as [p IH | p IH |]; intros x; cbn [iter_pos].
  - rewrite !IH, Pos2Nat.inj_xI, Nat.iter_succ_r.
    replace (2 * Pos.to_nat p)%nat with (Pos.to_nat p + Pos.to_nat p)%nat
      by lia.
    rewrite Nat.iter_add. reflexivity.
  - rewrite !IH, Pos2Nat.inj_xO.
    replace (2 * Pos.to_nat p)%nat with (Pos.to_nat p + Pos.to_nat p)%nat
      by lia.
    rewrite Nat.iter_add. reflexivity.
  - reflexivity.
Qed.

Lemma shift_code_bits (m d : Z) :
  0 <= d <= 3 ->
  shift_code (4 * m + d) = 2 * m + (if d =? 0 then 0 else 1).
Proof.
  intros Hd. unfold shift_code.
  replace (4 * m + d) with (d + m * 4) by ring.
  rewrite Z.div_add, Z.mod_add by lia.
  rewrite Z.div_small, Z.mod_small by lia. ring.
Qed.

Lemma code_shr_1 (r : shr_record) :
  0 <= shr_m r -> code (shr_1 r) = shift_code (code r) /\ 0 <= shr_m (shr_1 r).
Proof.
  destruct r as [m rb sb]. unfold code. cbn [shr_m shr_r shr_s].
  intros Hm.
  replace (4 * m + 2 * Z.b2z rb + Z.b2z sb)
    with (4 * m + (2 * Z.b2z rb + Z.b2z sb)) by ring.
  rewrite shift_code_bits by (destruct rb, sb; cbn; lia).
  assert (Hbits : (if 2 * Z.b2z rb + Z.b2z sb =? 0 then 0 else 1)
                  = Z.b2z (rb || sb)) by (destruct rb, sb; reflexivity).
  rewrite Hbits. clear Hbits.
  destruct m as [|p|p]; [| |lia]; [|destruct p as [p|p|]];
    cbn [shr_1 shr_m shr_r shr_s Z.b2z];
    generalize (Z.b2z (rb || sb)); intros t;
    try change (Z.pos p~1) with (2 * Z.pos p + 1);
    try change (Z.pos p~0) with (2 * Z.pos p);
    split; lia.
Qed.

Lemma code_iter_shr (n : nat) (r : shr_record) :
  0 <= shr_m r ->
  code (Nat.iter n shr_1 r) = Nat.iter n shift_code (code r) /\
  0 <= shr_m (Nat.iter n shr_1 r).
Proof.
  intros Hm. induction n as [|n [IHc IHm]]; [split; auto|].
  rewrite !Nat.iter_succ.
  destruct (code_shr_1 _ IHm) as [Hc Hm']. rewrite Hc, IHc. split; auto.
Qed.

Lemma shift_rnd_code (A B k : Z) :
  0 <= A -> 0 < B -> 0 <= k ->
  shift_code (rnd_code A B k) = rnd_code A B (k + 1).
Proof.
  intros HA HB Hk. unfold rnd_code.
  rewrite Z.pow_add_r by lia. change (2 ^ 1) with 2.
  set (D := B * 2 ^ k).
  assert (HD : 0 < D)
    by (apply Z.mul_pos_pos; [lia | apply Z.pow_pos_nonneg; lia]).
  replace (B * (2 ^ k * 2)) with (D * 2) by (unfold D; ring).
  rewrite <- (Z.div_div (2 * A) D 2) by lia.
  rewrite (Z.rem_mul_r (2 * A) D 2) by lia.
  pose proof (Z.mod_pos_bound (2 * A) D HD) as HR.
  set (Q := (2 * A) / D) in *. set (R := (2 * A) mod D) in *.
  pose proof (Z.mod_pos_bound Q 2 ltac:(lia)) as Hb.
  pose proof (Z.div_mod Q 2 ltac:(lia)) as HQ.
  set (h := Q / 2) in *. set (b := Q mod 2) in *.
  clearbody h b. clearbody Q R. clearbody D.
  replace (2 * Q + (if R =? 0 then 0 else 1))
    with (4 * h + (2 * b + (if R =? 0 then 0 else 1)))
    by (rewrite HQ at 1; ring).
  rewrite shift_code_bits; [|destruct (R =? 0); lia].
  f_equal.
  assert (Hcases : b = 0 \/ b = 1) by lia.
  destruct (Z.eqb_spec R 0) as [HR0 | HR0]; destruct Hcases as [-> | ->];
    rewrite ?Z.mul_0_r, ?Z.mul_1_r, ?Z.add_0_r; cbn [Z.mul Z.add Z.eqb Pos.mul Pos.add];
    destruct (Z.eqb_spec (R + D) 0); destruct (Z.eqb_spec R 0);
    try reflexivity; lia.
Qed.

Lemma iter_shift_rnd_code (n : nat) (A B k : Z) :
  0 <= A -> 0 < B -> 0 <= k ->
  Nat.iter n shift_code (rnd_code A B k) = rnd_code A B (k + Z.of_nat n).
Proof.
  intros HA HB Hk. induction n as [|n IH].
  - cbn [Nat.iter]. replace (k + Z.of_nat 0) with k by lia. reflexivity.
  - rewrite Nat.iter_succ, IH, shift_rnd_code by lia.
    replace (k + Z.of_nat n + 1) with (k + Z.of_nat (S n)) by lia.
    reflexivity.
Qed.

(** Order of the codes follows the order of the fractions. *)
Lemma rnd_frac_le (A1 D1 A2 D2 : Z) :
  0 <= A1 -> 0 <= A2 -> 0 < D1 -> 0 < D2 ->
  A1 * D2 <= A2 * D1 ->
  2 * ((2 * A1) / D1) + (if (2 * A1) mod D1 =? 0 then 0 else 1)
  <= 2 * ((2 * A2) / D2) + (if (2 * A2) mod D2 =? 0 then 0 else 1).
Proof.
  intros HA1 HA2 HD1 HD2 Hle.
  pose proof (Z.div_mod (2 * A1) D1 ltac:(lia)) as E1.
  pose proof (Z.div_mod (2 * A2) D2 ltac:(lia)) as E2.
  pose proof (Z.mod_pos_bound (2 * A1) D1 HD1) as R1.
  pose proof (Z.mod_pos_bound (2 * A2) D2 HD2) as R2.
  set (q1 := (2 * A1) / D1) in *. set (r1 := (2 * A1) mod D1) in *.
  set (q2 := (2 * A2) / D2) in *. set (r2 := (2 * A2) mod D2) in *.
  clearbody q1 r1 q2 r2.
  assert (Hq : q1 <= q2).
  { destruct (Z_le_gt_dec q1 q2) as [H | H]; [assumption|exfalso].
    assert (D1 * D2 * (q2 + 1) <= D1 * D2 * q1) by nia.
    nia. }
  destruct (Z.eq_dec q1 q2) as [Heq | Hne].
  - destruct (Z.eqb_spec r1 0); destruct (Z.eqb_spec r2 0); try lia.
    exfalso. subst r2. nia.
  - destruct (r1 =? 0); destruct (r2 =? 0); lia.
Qed.

(* ---------- rounding to nearest even on codes ---------- *)

Lemma code_split (r : shr_record) :
  0 <= shr_m r ->
  code r / 4 = shr_m r /\
  code r mod 4 = 2 * Z.b2z (shr_r r) + Z.b2z (shr_s r).
Proof.
  intros Hm. unfold code.
  replace (4 * shr_m r + 2 * Z.b2z (shr_r r) + Z.b2z (shr_s r))
    with (2 * Z.b2z (shr_r r) + Z.b2z (shr_s r) + shr_m r * 4) by ring.
  assert (0 <= 2 * Z.b2z (shr_r r) + Z.b2z (shr_s r) < 4)
    by (destruct (shr_r r), (shr_s r); cbn; lia).
  rewrite Z.div_add, Z.mod_add by lia.
  rewrite Z.div_small, Z.mod_small by lia. split; ring.
Qed.

Lemma rne_spec (r : shr_record) :
  0 <= shr_m r ->
  round_nearest_even (shr_m r) (loc_of_shr_record r) = rne (code r).
Proof.
  intros Hm. destruct (code_split r Hm) as [Hd Hmod].
  unfold rne. rewrite Hd, Hmod.
  destruct r as [m rb sb]. cbn [shr_m shr_r shr_s] in *.
  destruct rb, sb; reflexivity.
Qed.

Lemma rne_bounds (c : Z) : c / 4 <= rne c <= c / 4 + 1.
Proof.
  unfold rne.
  destruct (c mod 4 <=? 1); [lia|].
  destruct (c mod 4 =? 2); [destruct (Z.even (c / 4))|]; lia.
Qed.

Lemma rne_mono (c1 c2 : Z) : c1 <= c2 -> rne c1 <= rne c2.
Proof.
  intros Hle.
  pose proof (Z.div_mod c1 4 ltac:(lia)) as E1.
  pose proof (Z.div_mod c2 4 ltac:(lia)) as E2.
  pose proof (Z.mod_pos_bound c1 4 ltac:(lia)) as B1.
  pose proof (Z.mod_pos_bound c2 4 ltac:(lia)) as B2.
  pose proof (rne_bounds c1) as R1. pose proof (rne_bounds c2) as R2.
  destruct (Z.eq_dec (c1 / 4) (c2 / 4)) as [Heq | Hne]; [|lia].
  unfold rne in *. rewrite <- Heq in *.
  set (m := c1 / 4) in *. set (d1 := c1 mod 4) in *. set (d2 := c2 mod 4) in *.
  clearbody m d1 d2.
  assert (Hd : d1 <= d2) by lia.
  destruct (Z.leb_spec d1 1); destruct (Z.leb_spec d2 1);
    destruct (Z.eqb_spec d1 2); destruct (Z.eqb_spec d2 2);
    destruct (Z.even m); lia.
Qed.

(* ---------- digits ---------- *)

Lemma digits2_pos_size (p : positive) : digits2_pos p = Pos.size p.
Proof. induction p; cbn; congruence. Qed.

Lemma Zdigits2_bounds (p : positive) :
  2 ^ (Zdigits2 (Zpos p) - 1) <= Zpos p < 2 ^ Zdigits2 (Zpos p).
Proof.
  cbn [Zdigits2]. rewrite digits2_pos_size.
  pose proof (Pos.size_gt p) as Hgt. pose proof (Pos.size_le p) as Hle.
  split.
  - apply Pos2Z.pos_le_pos in Hle. rewrite Pos2Z.inj_pow in Hle.
    change (Z.pos p~0) with (2 * Z.pos p) in Hle.
    replace (Z.pos (Pos.size p)) with (Z.pos (Pos.size p) - 1 + 1) in Hle
      by lia.
    rewrite Z.pow_add_r in Hle by lia. change (2 ^ 1) with 2 in Hle. lia.
  - apply Pos2Z.pos_lt_pos in Hgt. rewrite Pos2Z.inj_pow in Hgt. exact Hgt.
Qed.

Lemma Zdigits2_pos (p : positive) : 0 < Zdigits2 (Zpos p).
Proof. cbn. lia. Qed.

(** A number below [2 ^ d] has at most [d] digits. *)
Lemma Zdigits2_le (m d : Z) : 0 <= m -> 0 <= d -> m < 2 ^ d -> Zdigits2 m <= d.
Proof.
  intros Hm Hd Hlt. destruct m as [|p|p]; [cbn; lia| |lia].
  pose proof (Zdigits2_bounds p) as [Hlo _].
  destruct (Z_le_gt_dec (Zdigits2 (Z.pos p)) d) as [H | H]; [assumption|].
  exfalso.
  assert (2 ^ d <= 2 ^ (Zdigits2 (Z.pos p) - 1))
    by (apply Z.pow_le_mono_r; lia).
  lia.
Qed.

(** A number of at least [2 ^ (d - 1)] has at least [d] digits. *)
Lemma Zdigits2_ge (m d : Z) : 0 < d -> 2 ^ (d - 1) <= m -> d <= Zdigits2 m.
Proof.
  intros Hd Hge.
  assert (0 < 2 ^ (d - 1)) by (apply Z.pow_pos_nonneg; lia).
  destruct m as [|p|p]; [lia| |lia].
  pose proof (Zdigits2_bounds p) as [_ Hhi].
  destruct (Z_le_gt_dec d (Zdigits2 (Z.pos p))) as [H' | H']; [assumption|].
  exfalso.
  assert (2 ^ Zdigits2 (Z.pos p) <= 2 ^ (d - 1))
    by (apply Z.pow_le_mono_r; lia).
  lia.
Qed.

(* ---------- shifting ---------- *)

Lemma shr_nonneg (r : shr_record) (e n : Z) :
  0 <= n ->
  shr r e n = (Nat.iter (Z.to_nat n) shr_1 r, e + n).
Proof.
  intros Hn. destruct n as [|p|p]; [|  |lia].
  - cbn. rewrite Z.add_0_r. reflexivity.
  - cbn [shr]. rewrite iter_pos_nat. reflexivity.
Qed.

Lemma shr_nonpos (r : shr_record) (e n : Z) :
  n <= 0 -> shr r e n = (r, e).
Proof. intros Hn. destruct n as [|p|p]; [reflexivity|lia|reflexivity]. Qed.

Lemma code_of_loc (m : Z) (l : location) :
  shr_m (shr_record_of_loc m l) = m.
Proof. destruct l as [|[| |]]; reflexivity. Qed.

(* ---------- binary64 parameters ---------- *)

Lemma fexp64 (x : Z) : fexp prec emax x = Z.max (x - 53) (-1074).
Proof. reflexivity. Qed.

Lemma fexp64_ge_emin (x : Z) : -1074 <= fexp prec emax x.
Proof. rewrite fexp64. lia. Qed.

Lemma fexp64_mono (x y : Z) : x <= y -> fexp prec emax x <= fexp prec emax y.
Proof. rewrite !fexp64. lia. Qed.

Lemma finish_zero (E : Z) : finish 0 E = S754_zero false.
Proof. reflexivity. Qed.

Lemma code_div4 (A D : Z) :
  0 < D ->
  (2 * ((2 * A) / D) + (if (2 * A) mod D =? 0 then 0 else 1)) / 4 = A / D.
Proof.
  intros HD.
  assert (Hq : A / D = (2 * A) / D / 2).
  { rewrite Z.div_div by lia. rewrite (Z.mul_comm D 2).
    rewrite Z.div_mul_cancel_l by lia. reflexivity. }
  rewrite Hq. generalize ((2 * A) / D). intros q.
  destruct ((2 * A) mod D =? 0); Z.to_euclidean_division_equations; lia.
Qed.

(** The rounding of [binary_round_aux], as arithmetic on the code of the
    value [A / B * 2 ^ e]. *)
Lemma round_aux_explicit (m e : Z) (l : location) (A B : Z) :
  0 <= A -> 0 < B -> 0 <= m ->
  code (shr_record_of_loc m l) = rnd_code A B 0 ->
  e <= fexp prec emax (Zdigits2 m + e) ->
  binary_round_aux prec emax false m e l =
  finish (rne (rnd_code A B (fexp prec emax (Zdigits2 m + e) - e)))
         (fexp prec emax (Zdigits2 m + e)).
Proof.
  intros HA HB Hm Hcode HE.
  set (E := fexp prec emax (Zdigits2 m + e)) in *.
  set (n := E - e).
  assert (Hn : 0 <= n) by (unfold n; lia).
  unfold binary_round_aux, shr_fexp. fold E. fold n.
  rewrite (shr_nonneg _ _ _ Hn).
  replace (e + n) with E by (unfold n; ring).
  set (r0 := shr_record_of_loc m l) in *.
  assert (Hm0 : 0 <= shr_m r0) by (unfold r0; rewrite code_of_loc; exact Hm).
  destruct (code_iter_shr (Z.to_nat n) r0 Hm0) as [Hc1 Hm1].
  set (r1 := Nat.iter (Z.to_nat n) shr_1 r0) in *.
  rewrite Hcode, iter_shift_rnd_code in Hc1 by lia.
  rewrite Z2Nat.id in Hc1 by lia. cbn [Z.add] in Hc1.
  rewrite (rne_spec r1 Hm1), Hc1.
  set (c := rnd_code A B n) in *.
  set (k := rne c).
  (* the mantissa after the shift has at most [prec] digits *)
  assert (Hmk : shr_m r1 = m / 2 ^ n).
  { destruct (code_split r1 Hm1) as [Hd _]. rewrite <- Hd, Hc1.
    destruct (code_split r0 Hm0) as [Hd0 _].
    unfold r0 in Hd0 at 2. rewrite code_of_loc in Hd0.
    rewrite <- Hd0, Hcode. unfold c, rnd_code.
    rewrite Z.pow_0_r, Z.mul_1_r.
    assert (HD : 0 < B * 2 ^ n)
      by (apply Z.mul_pos_pos; [lia | apply Z.pow_pos_nonneg; lia]).
    assert (H2n : 0 < 2 ^ n) by (apply Z.pow_pos_nonneg; lia).
    rewrite (code_div4 A (B * 2 ^ n) HD), (code_div4 A B HB).
    rewrite Z.div_div by lia. reflexivity. }
  assert (Hk : 0 <= k <= 2 ^ 53).
  { pose proof (rne_bounds c) as Hb. fold k in Hb.
    destruct (code_split r1 Hm1) as [Hd _]. rewrite Hc1 in Hd.
    rewrite Hd, Hmk in Hb.
    assert (H2n : 0 < 2 ^ n) by (apply Z.pow_pos_nonneg; lia).
    assert (m / 2 ^ n < 2 ^ 53).
    { apply Z.div_lt_upper_bound; [lia|].
      rewrite <- Z.pow_add_r by lia.
      destruct m as [|p|p]; [apply Z.pow_pos_nonneg; lia| |lia].
      pose proof (Zdigits2_bounds p) as [_ Hhi].
      eapply Z.lt_le_trans; [exact Hhi|].
      apply Z.pow_le_mono_r; [lia|].
      unfold n, E. rewrite fexp64. lia. }
    assert (0 <= m / 2 ^ n) by (apply Z.div_pos; lia).
    lia. }
  assert (HEmin : -1074 <= E) by (unfold E; apply fexp64_ge_emin).
  unfold finish. change (2 ^ prec) with 9007199254740992.
  change (2 ^ 53) with 9007199254740992 in Hk.
  destruct (Z.eqb_spec k 0) as [Hk0 | Hk0].
  - rewrite Hk0. cbn [shr_record_of_loc Zdigits2].
    rewrite shr_nonpos by (rewrite fexp64; lia). reflexivity.
  - destruct (Z.eqb_spec k 9007199254740992) as [Hkmax | Hkmax].
    + rewrite Hkmax. cbn [shr_record_of_loc].
      change (Zdigits2 9007199254740992) with 54.
      replace (fexp prec emax (54 + E) - E) with 1 by (rewrite fexp64; lia).
      cbn [shr iter_pos shr_1 shr_m].
      change (emax - prec) with 971.
      destruct (Z.leb_spec (E + 1) 971); reflexivity.
    + cbn [shr_record_of_loc].
      assert (Hdig : Zdigits2 k <= 53).
      { apply Zdigits2_le; [lia | lia |].
        change (2 ^ 53) with 9007199254740992. lia. }
      rewrite shr_nonpos by (rewrite fexp64; lia).
      cbn [shr_m].
      destruct k as [|p|p]; [lia| |lia].
      cbn [Z.to_pos]. reflexivity.
Qed.

(* ---------- comparing results ---------- *)

Lemma SFleb_finite_lt (m1 : positive) (e1 : Z) (m2 : positive) (e2 : Z) :
  e1 < e2 ->
  SFleb (S754_finite false m1 e1) (S754_finite false m2 e2) = true.
Proof.
  intros H. unfold SFleb, SFcompare.
  rewrite (proj2 (Z.compare_lt_iff e1 e2) H). reflexivity.
Qed.

Lemma SFleb_finite_eq (m1 m2 : positive) (e : Z) :
  (m1 <= m2)%positive ->
  SFleb (S754_finite false m1 e) (S754_finite false m2 e) = true.
Proof.
  intros H. unfold SFleb, SFcompare. rewrite Z.compare_refl.
  change (Pos.compare_cont Eq m1 m2) with (Pos.compare m1 m2).
  unfold Pos.le in H. destruct (m1 ?= m2)%positive; congruence.
Qed.

Ltac pos_le :=
  lia.

Lemma finish_mono (k1 E1 k2 E2 : Z) :
  0 <= k1 <= 2 ^ 53 -> 0 <= k2 <= 2 ^ 53 ->
  (E1 = E2 /\ k1 <= k2) \/ (E1 < E2 /\ 2 ^ 52 <= k2) ->
  SFleb (finish k1 E1) (finish k2 E2) = true.
Proof.
  change (2 ^ 53) with 9007199254740992.
  change (2 ^ 52) with 4503599627370496.
  intros H1 H2 Hcase. unfold finish.
  change (2 ^ prec) with 9007199254740992.
  change (Z.to_pos (2 ^ (prec - 1))) with 4503599627370496%positive.
  change (emax - prec) with 971.
  destruct (Z.eqb_spec k1 0) as [Hz1 | Hz1].
  { destruct (k2 =? 0); [reflexivity|].
    destruct (k2 =? 9007199254740992);
      [destruct (E2 + 1 <=? 971) | destruct (E2 <=? 971)]; reflexivity. }
  destruct (Z.eqb_spec k2 0) as [Hz2 | Hz2]; [lia|].
  destruct k1 as [|p1|p1]; [lia| |lia].
  destruct k2 as [|p2|p2]; [lia| |lia].
  cbn [Z.to_pos].
  destruct (Z.eqb_spec (Z.pos p1) 9007199254740992) as [Hm1 | Hm1];
    destruct (Z.eqb_spec (Z.pos p2) 9007199254740992) as [Hm2 | Hm2];
    repeat match goal with
           | |- context [Z.leb ?a ?b] => destruct (Z.leb_spec a b)
           end;
    try reflexivity; try lia;
    try (apply SFleb_finite_lt; lia);
    try (destruct Hcase as [[-> Hk] | [HE Hk]];
         [ first [ apply SFleb_finite_eq; pos_le | exfalso; lia ]
         | destruct (Z.eq_dec (E1 + 1) E2) as [<- | Hne];
           first [ apply SFleb_finite_lt; lia
                 | apply SFleb_finite_eq; pos_le
                 | exfalso; lia ] ]).
Qed.

(* ---------- rounding is monotone ---------- *)

Lemma rnd_code_div4 (A B n : Z) :
  0 < B -> 0 <= n -> rnd_code A B n / 4 = A / B / 2 ^ n.
Proof.
  intros HB Hn. unfold rnd_code.
  assert (H2n : 0 < 2 ^ n) by (apply Z.pow_pos_nonneg; lia).
  rewrite code_div4 by (apply Z.mul_pos_pos; lia).
  rewrite Z.div_div by lia. reflexivity.
Qed.

Lemma round_mantissa_bounds (A B e : Z) :
  round_input A B e ->
  let E := fexp prec emax (Zdigits2 (A / B) + e) in
  0 <= rne (rnd_code A B (E - e)) <= 2 ^ 53 /\
  (-1074 < E -> 2 ^ 52 <= rne (rnd_code A B (E - e))).
Proof.
  intros (HA & HB & HE) E. fold E in HE.
  set (m := A / B) in *. set (n := E - e).
  assert (Hm : 0 <= m) by (apply Z.div_pos; lia).
  assert (Hn : 0 <= n) by (unfold n; lia).
  assert (H2n : 0 < 2 ^ n) by (apply Z.pow_pos_nonneg; lia).
  pose proof (rne_bounds (rnd_code A B n)) as Hb.
  rewrite rnd_code_div4 in Hb by lia. fold m in Hb.
  assert (Hq : 0 <= m / 2 ^ n) by (apply Z.div_pos; lia).
  split.
  - assert (m / 2 ^ n < 2 ^ 53); [|lia].
    apply Z.div_lt_upper_bound; [lia|].
    rewrite <- Z.pow_add_r by lia.
    destruct m as [|p|p]; [apply Z.pow_pos_nonneg; lia| |lia].
    pose proof (Zdigits2_bounds p) as [_ Hhi].
    eapply Z.lt_le_trans; [exact Hhi|].
    apply Z.pow_le_mono_r; [lia|].
    unfold n, E. rewrite fexp64. lia.
  - intros Hnorm.
    assert (2 ^ 52 <= m / 2 ^ n); [|lia].
    assert (HEeq : E = Zdigits2 m + e - 53)
      by (unfold E in *; rewrite fexp64 in *; lia).
    destruct m as [|p|p]; [|  |lia].
    + exfalso. cbn [Zdigits2] in HEeq. lia.
    + pose proof (Zdigits2_bounds p) as [Hlo _].
      apply Z.div_le_lower_bound; [lia|].
      rewrite <- Z.pow_add_r by lia.
      replace (n + 52) with (Zdigits2 (Z.pos p) - 1) by (unfold n; lia).
      exact Hlo.
Qed.

Lemma pow2_pos (x : Z) : 0 <= x -> 0 < 2 ^ x.
Proof. intros. apply Z.pow_pos_nonneg; lia. Qed.

(** The exponent of the result grows with the value. *)
Lemma round_exponent_mono (A1 B1 e1 A2 B2 e2 : Z) :
  round_input A1 B1 e1 -> round_input A2 B2 e2 ->
  val_le A1 B1 e1 A2 B2 e2 ->
  fexp prec emax (Zdigits2 (A1 / B1) + e1)
  <= fexp prec emax (Zdigits2 (A2 / B2) + e2).
Proof.
  intros (HA1 & HB1 & HE1) (HA2 & HB2 & HE2) Hval.
  set (m1 := A1 / B1) in *. set (m2 := A2 / B2) in *.
  assert (Hm1 : 0 <= m1) by (apply Z.div_pos; lia).
  assert (Hm2 : 0 <= m2) by (apply Z.div_pos; lia).
  destruct (Z.eq_dec m1 0) as [Hz | Hnz].
  { clearbody m1. subst m1. cbn [Zdigits2 Z.add] in *.
    rewrite fexp64 in HE1. rewrite (fexp64 e1), (fexp64 (_ + e2)). lia. }
  apply fexp64_mono.
  set (d1 := Zdigits2 m1). set (d2 := Zdigits2 m2).
  set (mu := Z.min e1 e2) in *.
  unfold val_le in Hval. fold mu in Hval.
  assert (Hd1 : 0 < d1 /\ 2 ^ (d1 - 1) <= m1).
  { unfold d1. destruct m1 as [|p|p]; [lia| |lia].
    split; [apply Zdigits2_pos | apply Zdigits2_bounds]. }
  assert (Hd2 : 0 <= d2 /\ m2 + 1 <= 2 ^ d2).
  { unfold d2. destruct m2 as [|p|p]; [cbn; lia| |lia].
    pose proof (Zdigits2_pos p). pose proof (Zdigits2_bounds p). lia. }
  assert (HA1' : B1 * 2 ^ (d1 - 1) <= A1).
  { pose proof (Z.mul_div_le A1 B1 HB1). fold m1 in H. nia. }
  assert (HA2' : A2 < B2 * 2 ^ d2).
  { pose proof (Z.mul_succ_div_gt A2 B2 HB2) as H. fold m2 in H.
    unfold Z.succ in H. nia. }
  assert (P1 : 0 < 2 ^ (e1 - mu)) by (apply pow2_pos; lia).
  assert (P2 : 0 < 2 ^ (e2 - mu)) by (apply pow2_pos; lia).
  assert (Hlt : 2 ^ (d1 - 1) * 2 ^ (e1 - mu) < 2 ^ d2 * 2 ^ (e2 - mu)).
  { assert (0 < B1 * B2) by nia.
    assert (B1 * B2 * (2 ^ (d1 - 1) * 2 ^ (e1 - mu))
            < B1 * B2 * (2 ^ d2 * 2 ^ (e2 - mu))); [|nia].
    assert (B1 * 2 ^ (d1 - 1) * B2 * 2 ^ (e1 - mu)
            <= A1 * B2 * 2 ^ (e1 - mu)) by nia.
    assert (A2 * B1 * 2 ^ (e2 - mu) < B2 * 2 ^ d2 * B1 * 2 ^ (e2 - mu))
      by nia.
    nia. }
  rewrite <- !Z.pow_add_r in Hlt by lia.
  apply Z.pow_lt_mono_r_iff in Hlt; lia.
Qed.

Theorem round_of_mono (A1 B1 e1 A2 B2 e2 : Z) :
  round_input A1 B1 e1 -> round_input A2 B2 e2 ->
  val_le A1 B1 e1 A2 B2 e2 ->
  SFleb (round_of A1 B1 e1) (round_of A2 B2 e2) = true.
Proof.
  intros R1 R2 Hval.
  pose proof (round_exponent_mono _ _ _ _ _ _ R1 R2 Hval) as HE.
  pose proof (round_mantissa_bounds _ _ _ R1) as [Hk1 _].
  pose proof (round_mantissa_bounds _ _ _ R2) as [Hk2 Hlo2].
  unfold round_of.
  set (E1 := fexp prec emax (Zdigits2 (A1 / B1) + e1)) in *.
  set (E2 := fexp prec emax (Zdigits2 (A2 / B2) + e2)) in *.
  cbv zeta in Hk1, Hk2, Hlo2.
  apply finish_mono; [exact Hk1 | exact Hk2 |].
  destruct (Z.eq_dec E1 E2) as [Heq | Hne].
  - left. split; [exact Heq|].
    apply rne_mono. unfold rnd_code.
    destruct R1 as (HA1 & HB1 & Hn1). destruct R2 as (HA2 & HB2 & Hn2).
    fold E1 in Hn1. fold E2 in Hn2.
    assert (Q1 : 0 < 2 ^ (E1 - e1)) by (apply pow2_pos; lia).
    assert (Q2 : 0 < 2 ^ (E2 - e2)) by (apply pow2_pos; lia).
    apply rnd_frac_le; try lia; try (apply Z.mul_pos_pos; lia).
    unfold val_le in Hval. set (mu := Z.min e1 e2) in *.
    assert (P1 : 0 < 2 ^ (e1 - mu)) by (apply pow2_pos; lia).
    assert (P2 : 0 < 2 ^ (e2 - mu)) by (apply pow2_pos; lia).
    assert (T1 : 2 ^ (e1 - mu) * 2 ^ (E1 - e1) = 2 ^ (E1 - mu))
      by (rewrite <- Z.pow_add_r by lia; f_equal; lia).
    assert (T2 : 2 ^ (e2 - mu) * 2 ^ (E2 - e2) = 2 ^ (E1 - mu))
      by (rewrite <- Z.pow_add_r by lia; f_equal; lia).
    assert (T : 0 < 2 ^ (E1 - mu)) by (apply pow2_pos; lia).
    apply (Z.mul_le_mono_pos_r _ _ (2 ^ (E1 - mu)) T).
    transitivity (A1 * B2 * 2 ^ (e1 - mu) * (2 ^ (E1 - e1) * 2 ^ (E2 - e2))).
    { rewrite <- T1. ring_simplify. apply Z.eq_le_incl. ring. }
    transitivity (A2 * B1 * 2 ^ (e2 - mu) * (2 ^ (E1 - e1) * 2 ^ (E2 - e2))).
    { apply Z.mul_le_mono_nonneg_r; [nia | exact Hval]. }
    rewrite <- T2. apply Z.eq_le_incl. ring.
  - right. split; [lia|]. apply Hlo2.
    pose proof (fexp64_ge_emin (Zdigits2 (A1 / B1) + e1)). fold E1 in H. lia.
Qed.

(* ---------- values of binary64 numbers ---------- *)

Lemma val_le_base (mu A1 B1 e1 A2 B2 e2 : Z) :
  mu <= e1 -> mu <= e2 ->
  val_le A1 B1 e1 A2 B2 e2 <->
  A1 * B2 * 2 ^ (e1 - mu) <= A2 * B1 * 2 ^ (e2 - mu).
Proof.
  intros H1 H2. unfold val_le. set (m := Z.min e1 e2).
  assert (Hm : mu <= m) by (unfold m; lia).
  assert (T : 0 < 2 ^ (m - mu)) by (apply pow2_pos; lia).
  replace (e1 - mu) with ((e1 - m) + (m - mu)) by ring.
  replace (e2 - mu) with ((e2 - m) + (m - mu)) by ring.
  rewrite !Z.pow_add_r by (unfold m; lia).
  rewrite !Z.mul_assoc.
  split; intros H.
  - apply Z.mul_le_mono_nonneg_r; [lia | exact H].
  - apply (Z.mul_le_mono_pos_r _ _ _ T). exact H.
Qed.

(** A valid positive finite number: canonical mantissa, bounded exponent. *)
Lemma valid_finite (m : positive) (e : Z) :
  valid_binary (S754_finite false m e) = true ->
  fexp prec emax (Zdigits2 (Z.pos m) + e) = e /\ e <= 971 /\
  -1074 <= e /\ Zdigits2 (Z.pos m) <= 53 /\
  (e = -1074 \/ Zdigits2 (Z.pos m) = 53).
Proof.
  cbn [SpecFloat.valid_binary]. unfold bounded, canonical_mantissa.
  rewrite andb_true_iff, Z.eqb_eq, Z.leb_le.
  change (emax - prec) with 971.
  change (Z.pos (digits2_pos m)) with (Zdigits2 (Z.pos m)).
  intros [Hc He]. pose proof Hc as Hc'. rewrite fexp64 in Hc'.
  repeat split; try assumption; lia.
Qed.

Lemma round_input_finite (m : positive) (e : Z) :
  valid_binary (S754_finite false m e) = true ->
  round_input (Z.pos m) 1 e.
Proof.
  intros Hv. destruct (valid_finite m e Hv) as (Hc & _).
  unfold round_input. rewrite Z.div_1_r, Hc. lia.
Qed.

Lemma round_of_finite (m : positive) (e : Z) :
  valid_binary (S754_finite false m e) = true ->
  round_of (Z.pos m) 1 e = S754_finite false m e.
Proof.
  intros Hv. destruct (valid_finite m e Hv) as (Hc & He & _ & Hd & _).
  unfold round_of. rewrite Z.div_1_r, Hc, Z.sub_diag.
  assert (Hcode : rnd_code (Z.pos m) 1 0 = 4 * Z.pos m).
  { unfold rnd_code. rewrite Z.pow_0_r, Z.mul_1_r, Z.div_1_r, Z.mod_1_r.
    cbn [Z.eqb]. ring. }
  rewrite Hcode.
  assert (Hrne : rne (4 * Z.pos m) = Z.pos m).
  { unfold rne. rewrite (Z.mul_comm 4), Z.div_mul, Z.mod_mul by lia.
    reflexivity. }
  rewrite Hrne. unfold finish.
  change (2 ^ prec) with 9007199254740992. change (emax - prec) with 971.
  pose proof (Zdigits2_bounds m) as [_ Hhi].
  assert (Z.pos m < 2 ^ 53).
  { eapply Z.lt_le_trans; [exact Hhi|]. apply Z.pow_le_mono_r; lia. }
  change (2 ^ 53) with 9007199254740992 in *.
  destruct (Z.eqb_spec (Z.pos m) 0); [lia|].
  destruct (Z.eqb_spec (Z.pos m) 9007199254740992); [lia|].
  destruct (Z.leb_spec e 971); [reflexivity | lia].
Qed.

(** The order of two valid positive numbers is the order of their values. *)
Lemma SFleb_val_le (m1 : positive) (e1 : Z) (m2 : positive) (e2 : Z) :
  valid_binary (S754_finite false m1 e1) = true ->
  valid_binary (S754_finite false m2 e2) = true ->
  SFleb (S754_finite false m1 e1) (S754_finite false m2 e2) = true ->
  val_le (Z.pos m1) 1 e1 (Z.pos m2) 1 e2.
Proof.
  intros V1 V2 Hle.
  destruct (valid_finite _ _ V1) as (_ & _ & Hlo1 & Hd1 & Hn1).
  destruct (valid_finite _ _ V2) as (_ & _ & Hlo2 & Hd2 & Hn2).
  unfold SFleb, SFcompare in Hle.
  unfold val_le. rewrite !Z.mul_1_r.
  destruct (Z.compare_spec e1 e2) as [Heq | Hlt | Hgt].
  - subst e2. rewrite Z.min_id, Z.sub_diag, Z.pow_0_r, !Z.mul_1_r.
    change (Pos.compare_cont Eq m1 m2) with (Pos.compare m1 m2) in Hle.
    destruct (Pos.compare_spec m1 m2); try lia; discriminate.
  - replace (Z.min e1 e2) with e1 by lia.
    rewrite Z.sub_diag, Z.pow_0_r, Z.mul_1_r.
    assert (Hd2' : Zdigits2 (Z.pos m2) = 53) by lia.
    pose proof (Zdigits2_bounds m1) as [_ Hhi1].
    pose proof (Zdigits2_bounds m2) as [Hlo2' _].
    rewrite Hd2' in Hlo2'.
    assert (Z.pos m1 < 2 ^ 53).
    { eapply Z.lt_le_trans; [exact Hhi1|]. apply Z.pow_le_mono_r; lia. }
    assert (2 ^ 1 <= 2 ^ (e2 - e1)) by (apply Z.pow_le_mono_r; lia).
    change (2 ^ 53) with 9007199254740992 in *.
    change (2 ^ (53 - 1)) with 4503599627370496 in *.
    change (2 ^ 1) with 2 in *. nia.
  - discriminate.
Qed.

(* ---------- multiplication ---------- *)

Lemma code_exact (m : Z) :
  code (shr_record_of_loc m loc_Exact) = rnd_code m 1 0.
Proof.
  unfold rnd_code, code. cbn [shr_record_of_loc shr_m shr_r shr_s Z.b2z].
  rewrite Z.pow_0_r, Z.mul_1_r, Z.div_1_r, Z.mod_1_r. cbn [Z.eqb]. ring.
Qed.

Lemma SFmul_finite (m1 : positive) (e1 : Z) (m2 : positive) (e2 : Z) :
  valid_binary (S754_finite false m1 e1) = true ->
  valid_binary (S754_finite false m2 e2) = true ->
  round_input (Z.pos m1 * Z.pos m2) 1 (e1 + e2) /\
  SFmul prec emax (S754_finite false m1 e1) (S754_finite false m2 e2)
  = round_of (Z.pos m1 * Z.pos m2) 1 (e1 + e2).
Proof.
  intros V1 V2.
  destruct (valid_finite _ _ V1) as (_ & _ & Hlo1 & Hd1 & Hn1).
  destruct (valid_finite _ _ V2) as (_ & _ & Hlo2 & Hd2 & Hn2).
  assert (HE : e1 + e2
               <= fexp prec emax (Zdigits2 (Z.pos m1 * Z.pos m2) + (e1 + e2))).
  { rewrite fexp64.
    pose proof (Zdigits2_bounds m1) as [L1 _].
    pose proof (Zdigits2_bounds m2) as [L2 _].
    pose proof (Zdigits2_pos m1). pose proof (Zdigits2_pos m2).
    assert (Hdig : Zdigits2 (Z.pos m1) + Zdigits2 (Z.pos m2) - 1
                   <= Zdigits2 (Z.pos m1 * Z.pos m2)).
    { apply Zdigits2_ge; [lia|].
      replace (Zdigits2 (Z.pos m1) + Zdigits2 (Z.pos m2) - 1 - 1)
        with ((Zdigits2 (Z.pos m1) - 1) + (Zdigits2 (Z.pos m2) - 1)) by ring.
      rewrite Z.pow_add_r by lia.
      apply Z.mul_le_mono_nonneg; try assumption;
        apply Z.lt_le_incl, pow2_pos; lia. }
    lia. }
  split.
  - unfold round_input. rewrite Z.div_1_r. lia.
  - cbn [SFmul xorb]. rewrite Pos2Z.inj_mul.
    rewrite (round_aux_explicit _ _ _ (Z.pos m1 * Z.pos m2) 1);
      try apply code_exact; try exact HE; try lia.
    unfold round_of. rewrite Z.div_1_r. reflexivity.
Qed.

(* ---------- division ---------- *)

Lemma new_location_code (q B r : Z) :
  0 < B -> 0 <= r < B ->
  code (shr_record_of_loc q (new_location B r)) = 4 * q + remainder_code B r.
Proof.
  intros HB Hr. unfold new_location, new_location_even, new_location_odd,
    remainder_code, code.
  destruct (Z.even B) eqn:Hev; destruct (Z.eqb_spec r 0) as [Hr0 | Hr0];
    try (cbn; ring).
  - destruct (Z.compare_spec (2 * r) B); cbn; ring.
  - assert (Hodd : 2 * r <> B).
    { intros E. rewrite <- E in Hev. rewrite Z.even_mul in Hev. discriminate. }
    destruct (Z.compare_spec (2 * r + 1) B);
      destruct (Z.compare_spec (2 * r) B); cbn; try ring; lia.
Qed.

Lemma rnd_code_eucl (A B q r : Z) :
  0 < B -> 0 <= r < B -> A = B * q + r ->
  rnd_code A B 0 = 4 * q + remainder_code B r.
Proof.
  intros HB Hr HA. unfold rnd_code, remainder_code.
  rewrite Z.pow_0_r, Z.mul_1_r.
  destruct (Z.compare_spec (2 * r) B) as [Heq | Hlt | Hgt].
  - assert (Hd : (2 * A) / B = 2 * q + 1)
      by (symmetry; apply (Z.div_unique _ _ _ 0); lia).
    assert (Hm : (2 * A) mod B = 0)
      by (symmetry; apply (Z.mod_unique _ _ (2 * q + 1)); lia).
    rewrite Hd, Hm. destruct (Z.eqb_spec r 0); [lia|]. cbn [Z.eqb]. lia.
  - assert (Hd : (2 * A) / B = 2 * q)
      by (symmetry; apply (Z.div_unique _ _ _ (2 * r)); lia).
    assert (Hm : (2 * A) mod B = 2 * r)
      by (symmetry; apply (Z.mod_unique _ _ (2 * q)); lia).
    rewrite Hd, Hm.
    destruct (Z.eqb_spec r 0); destruct (Z.eqb_spec (2 * r) 0); lia.
  - assert (Hd : (2 * A) / B = 2 * q + 1)
      by (symmetry; apply (Z.div_unique _ _ _ (2 * r - B)); lia).
    assert (Hm : (2 * A) mod B = 2 * r - B)
      by (symmetry; apply (Z.mod_unique _ _ (2 * q + 1)); lia).
    rewrite Hd, Hm.
    destruct (Z.eqb_spec r 0); destruct (Z.eqb_spec (2 * r - B) 0); lia.
Qed.

Lemma SFdiv_finite (m1 : positive) (e1 : Z) (m2 : positive) (e2 : Z) :
  valid_binary (S754_finite false m1 e1) = true ->
  let e' := div_exponent (Z.pos m1) e1 (Z.pos m2) e2 in
  let A := Z.pos m1 * 2 ^ (e1 - e2 - e') in
  round_input A (Z.pos m2) e' /\
  SFdiv prec emax (S754_finite false m1 e1) (S754_finite false m2 e2)
  = round_of A (Z.pos m2) e'.
Proof.
  intros V1 e' A.
  destruct (valid_finite _ _ V1) as (_ & _ & Hlo1 & Hd1 & Hn1).
  set (s := e1 - e2 - e') in *.
  assert (Hs : 0 <= s) by (unfold s, e', div_exponent; lia).
  assert (H2s : 0 < 2 ^ s) by (apply pow2_pos; lia).
  assert (HA : 0 < A) by (unfold A; lia).
  set (q := A / Z.pos m2). set (r := A mod Z.pos m2).
  assert (Hr : 0 <= r < Z.pos m2) by (apply Z.mod_pos_bound; lia).
  assert (Hq : 0 <= q) by (apply Z.div_pos; lia).
  assert (HAqr : A = Z.pos m2 * q + r) by (apply Z.div_mod; lia).
  assert (HE : e' <= fexp prec emax (Zdigits2 q + e')).
  { rewrite fexp64.
    destruct (Z_le_gt_dec e' (-1074)) as [Hsmall | Hbig]; [lia|].
    assert (He' : e' = Zdigits2 (Z.pos m1) + e1
                       - (Zdigits2 (Z.pos m2) + e2) - 53).
    { unfold e', div_exponent in *. rewrite fexp64 in *.
      pose proof (Zdigits2_pos m2). lia. }
    assert (Hsv : s = 53 - Zdigits2 (Z.pos m1) + Zdigits2 (Z.pos m2))
      by (unfold s; lia).
    assert (52 < Zdigits2 q); [|lia].
    assert (53 <= Zdigits2 q); [|lia].
    apply Zdigits2_ge; [lia|]. change (2 ^ (53 - 1)) with (2 ^ 52).
    unfold q. apply Z.div_le_lower_bound; [lia|].
    pose proof (Zdigits2_bounds m1) as [L1 _].
    pose proof (Zdigits2_bounds m2) as [_ U2].
    pose proof (Zdigits2_pos m1). pose proof (Zdigits2_pos m2).
    unfold A.
    assert (2 ^ (Zdigits2 (Z.pos m1) - 1) * 2 ^ s
            = 2 ^ 52 * 2 ^ Zdigits2 (Z.pos m2)).
    { rewrite <- !Z.pow_add_r by lia. f_equal. lia. }
    assert (0 < 2 ^ 52) by (apply pow2_pos; lia).
    nia. }
  split.
  - unfold round_input. fold q. lia.
  - cbn [SFdiv xorb]. unfold SFdiv_core_binary.
    fold (div_exponent (Z.pos m1) e1 (Z.pos m2) e2). fold e'. fold s.
    assert (Hm' : match s with
                  | 0 => Z.pos m1
                  | Z.pos _ => Z.shiftl (Z.pos m1) s
                  | Z.neg _ => 0
                  end = A).
    { unfold A. fold s. destruct s as [|p|p]; [|  |lia].
      - rewrite Z.pow_0_r. ring.
      - apply Z.shiftl_mul_pow2. lia. }
    rewrite Hm'.
    assert (Heucl : Z.div_eucl A (Z.pos m2) = (q, r)).
    { unfold q, r, Z.div, Z.modulo.
      destruct (Z.div_eucl A (Z.pos m2)). reflexivity. }
    rewrite Heucl.
    rewrite (round_aux_explicit q e' _ A (Z.pos m2)); try lia.
    + unfold round_of. fold q. reflexivity.
    + rewrite new_location_code by lia.
      symmetry. apply rnd_code_eucl; lia.
Qed.

(* ---------- subtraction ---------- *)

Lemma pos_iter_xO (m d : positive) :
  Z.pos (Pos.iter xO m d) = Z.pos m * 2 ^ Z.pos d /\
  Zdigits2 (Z.pos (Pos.iter xO m d)) = Zdigits2 (Z.pos m) + Z.pos d.
Proof.
  induction d as [|d [IHv IHd]] using Pos.peano_ind.
  - cbn [Pos.iter]. split; [lia|]. cbn. lia.
  - rewrite Pos.iter_succ. split.
    + change (Z.pos (Pos.iter xO m d)~0) with (2 * Z.pos (Pos.iter xO m d)).
      rewrite IHv, Pos2Z.inj_succ, Z.pow_succ_r by lia. ring.
    + cbn [Zdigits2 digits2_pos] in *. rewrite Pos2Z.inj_succ. lia.
Qed.

Lemma shl_align_spec (m : positive) (e e' : Z) :
  e' <= e ->
  Z.pos (fst (shl_align m e e')) = Z.pos m * 2 ^ (e - e') /\
  snd (shl_align m e e') = e' /\
  Zdigits2 (Z.pos (fst (shl_align m e e'))) = Zdigits2 (Z.pos m) + (e - e').
Proof.
  intros Hle. unfold shl_align.
  destruct (e' - e) as [|p|p] eqn:Hd; [|lia|].
  - assert (e' = e) by lia. subst e'. cbn [fst snd].
    rewrite Z.sub_diag, Z.pow_0_r. repeat split; lia.
  - cbn [fst snd]. destruct (pos_iter_xO m p) as [Hv Hdig].
    replace (e - e') with (Z.pos p) by lia. repeat split; assumption.
Qed.

Lemma shl_align_id (m : positive) (e e' : Z) :
  e <= e' -> shl_align m e e' = (m, e).
Proof.
  intros Hle. unfold shl_align.
  destruct (e' - e) as [|p|p] eqn:Hd; [reflexivity|reflexivity|lia].
Qed.

(** Rounding a positive dyadic number given at any exponent. *)
Lemma binary_round_spec (m : positive) (e : Z) :
  -1074 <= e ->
  exists A e',
    round_input A 1 e' /\ -1074 <= e' /\
    binary_round prec emax false m e = round_of A 1 e' /\
    A * 2 ^ (e' + 1074) = Z.pos m * 2 ^ (e + 1074).
Proof.
  intros He. unfold binary_round.
  set (Et := fexp prec emax (Z.pos (digits2_pos m) + e)).
  change (Z.pos (digits2_pos m)) with (Zdigits2 (Z.pos m)) in Et.
  assert (HEt : -1074 <= Et) by apply fexp64_ge_emin.
  destruct (Z_le_gt_dec e Et) as [Hle | Hgt].
  - rewrite shl_align_id by exact Hle.
    exists (Z.pos m), e. repeat split; try lia.
    + rewrite Z.div_1_r. fold Et. exact Hle.
    + rewrite (round_aux_explicit _ _ _ (Z.pos m) 1);
        try apply code_exact; try lia; try (fold Et; exact Hle).
      unfold round_of. rewrite Z.div_1_r. reflexivity.
  - destruct (shl_align_spec m e Et ltac:(lia)) as (Hv & Hs & Hd).
    destruct (shl_align m e Et) as [mz ez] eqn:Hal. cbn [fst snd] in *.
    subst ez.
    assert (HE : fexp prec emax (Zdigits2 (Z.pos mz) + Et) = Et).
    { rewrite Hd. replace (Zdigits2 (Z.pos m) + (e - Et) + Et)
        with (Zdigits2 (Z.pos m) + e) by ring. reflexivity. }
    exists (Z.pos mz), Et. repeat split; try lia.
    + rewrite Z.div_1_r, HE. lia.
    + rewrite (round_aux_explicit _ _ _ (Z.pos mz) 1);
        try apply code_exact; try lia; try (rewrite HE; lia).
      unfold round_of. rewrite Z.div_1_r. reflexivity.
    + rewrite Hv. rewrite <- Z.mul_assoc, <- Z.pow_add_r by lia.
      f_equal. f_equal. lia.
Qed.

Lemma round_of_zero : round_of 0 1 (-1074) = S754_zero false.
Proof. reflexivity. Qed.

Lemma round_input_zero : round_input 0 1 (-1074).
Proof. unfold round_input. cbn. lia. Qed.

(** [a - c] for valid positive [c <= a]. *)
Lemma SFsub_finite (ma : positive) (ea : Z) (mc : positive) (ec : Z) :
  valid_binary (S754_finite false ma ea) = true ->
  valid_binary (S754_finite false mc ec) = true ->
  Z.pos mc * 2 ^ (ec + 1074) <= Z.pos ma * 2 ^ (ea + 1074) ->
  exists A e,
    round_input A 1 e /\ -1074 <= e /\
    SFsub prec emax (S754_finite false ma ea) (S754_finite false mc ec)
    = round_of A 1 e /\
    A * 2 ^ (e + 1074)
    = Z.pos ma * 2 ^ (ea + 1074) - Z.pos mc * 2 ^ (ec + 1074).
Proof.
  intros Va Vc Hle.
  destruct (valid_finite _ _ Va) as (_ & _ & Hloa & _).
  destruct (valid_finite _ _ Vc) as (_ & _ & Hloc & _).
  cbn [SFsub cond_Zopp]. set (ez := Z.min ea ec).
  destruct (shl_align_spec ma ea ez ltac:(unfold ez; lia)) as (Hva & _ & _).
  destruct (shl_align_spec mc ec ez ltac:(unfold ez; lia)) as (Hvc & _ & _).
  rewrite Hva, Hvc.
  set (diff := Z.pos ma * 2 ^ (ea - ez) - Z.pos mc * 2 ^ (ec - ez)).
  assert (Hez : -1074 <= ez) by (unfold ez; lia).
  assert (Hdiff : diff * 2 ^ (ez + 1074)
                  = Z.pos ma * 2 ^ (ea + 1074) - Z.pos mc * 2 ^ (ec + 1074)).
  { unfold diff. rewrite Z.mul_sub_distr_r.
    rewrite <- !Z.mul_assoc, <- !Z.pow_add_r by (unfold ez; lia).
    f_equal; f_equal; f_equal; lia. }
  assert (Hpos : 0 <= diff).
  { assert (0 < 2 ^ (ez + 1074)) by (apply pow2_pos; lia). nia. }
  unfold binary_normalize.
  destruct diff as [|p|p] eqn:Ed; [| |lia].
  - exists 0, (-1074). repeat split; try lia; try apply round_input_zero.
  - destruct (binary_round_spec p ez Hez) as (A & e' & HR & He' & Hround & Hv).
    exists A, e'. split; [exact HR|]. split; [exact He'|].
    split; [exact Hround|]. rewrite Hv. exact Hdiff.
Qed.

(* ---------- the non-negative numbers ---------- *)

Lemma finish_nonneg (k E : Z) : nonneg (finish k E) = true.
Proof.
  unfold finish.
  repeat match goal with
         | |- context [if ?c then _ else _] => destruct c
         end; reflexivity.
Qed.

Lemma round_of_nonneg (A B e : Z) : nonneg (round_of A B e) = true.
Proof. apply finish_nonneg. Qed.

Lemma SFleb_zero_l (x : spec_float) :
  nonneg x = true -> SFleb (S754_zero false) x = true.
Proof. destruct x as [[|]|[|]| |[|] m e]; try discriminate; reflexivity. Qed.

Lemma SFleb_inf_r (x : spec_float) :
  nonneg x = true -> SFleb x (S754_infinity false) = true.
Proof. destruct x as [[|]|[|]| |[|] m e]; try discriminate; reflexivity. Qed.

Lemma nonneg_or_nan_of_nonneg (x : spec_float) :
  nonneg x = true -> nonneg_or_nan x = true.
Proof. destruct x; auto. Qed.

Lemma finite_pos_nonneg (x : spec_float) :
  finite_pos x = true -> nonneg x = true.
Proof. destruct x as [[|]|[|]| |[|] m e]; auto. Qed.

(** Values of the operands of a product, a quotient and a difference. *)
Lemma val_le_mul_r (m1 e1 m2 e2 mf ef : Z) :
  0 <= mf ->
  val_le m1 1 e1 m2 1 e2 ->
  val_le (m1 * mf) 1 (e1 + ef) (m2 * mf) 1 (e2 + ef).
Proof.
  intros Hf. unfold val_le.
  replace (Z.min (e1 + ef) (e2 + ef)) with (Z.min e1 e2 + ef) by lia.
  replace (e1 + ef - (Z.min e1 e2 + ef)) with (e1 - Z.min e1 e2) by ring.
  replace (e2 + ef - (Z.min e1 e2 + ef)) with (e2 - Z.min e1 e2) by ring.
  generalize (2 ^ (e1 - Z.min e1 e2)) (2 ^ (e2 - Z.min e1 e2)).
  intros p1 p2 H. nia.
Qed.

Lemma val_le_mul_l (m1 e1 m2 e2 mf ef : Z) :
  0 <= mf ->
  val_le m1 1 e1 m2 1 e2 ->
  val_le (mf * m1) 1 (ef + e1) (mf * m2) 1 (ef + e2).
Proof.
  intros Hf H. rewrite !(Z.mul_comm mf), !(Z.add_comm ef).
  apply val_le_mul_r; assumption.
Qed.

Lemma val_le_div (m1 e1 m2 e2 mf ef d1 d2 : Z) :
  0 < mf -> d1 <= e1 - ef -> d2 <= e2 - ef ->
  val_le m1 1 e1 m2 1 e2 ->
  val_le (m1 * 2 ^ (e1 - ef - d1)) mf d1 (m2 * 2 ^ (e2 - ef - d2)) mf d2.
Proof.
  intros Hf H1 H2 H.
  set (mu := Z.min d1 d2).
  apply (val_le_base (mu + ef)) in H; [|unfold mu; lia|unfold mu; lia].
  unfold val_le. fold mu.
  assert (T1 : 2 ^ (e1 - ef - d1) * 2 ^ (d1 - mu) = 2 ^ (e1 - (mu + ef))).
  { rewrite <- Z.pow_add_r by (unfold mu; lia). f_equal. lia. }
  assert (T2 : 2 ^ (e2 - ef - d2) * 2 ^ (d2 - mu) = 2 ^ (e2 - (mu + ef))).
  { rewrite <- Z.pow_add_r by (unfold mu; lia). f_equal. lia. }
  rewrite <- T1, <- T2 in H.
  revert H.
  generalize (2 ^ (e1 - ef - d1)) (2 ^ (d1 - mu))
             (2 ^ (e2 - ef - d2)) (2 ^ (d2 - mu)).
  intros a b c d H. nia.
Qed.

Lemma val_le_sub (A1 d1 A2 d2 v1 v2 c : Z) :
  -1074 <= d1 -> -1074 <= d2 ->
  A1 * 2 ^ (d1 + 1074) = v1 - c ->
  A2 * 2 ^ (d2 + 1074) = v2 - c ->
  v1 <= v2 ->
  val_le A1 1 d1 A2 1 d2.
Proof.
  intros H1 H2 E1 E2 Hle.
  apply (val_le_base (-1074)); [lia | lia |].
  replace (d1 - -1074) with (d1 + 1074) by ring.
  replace (d2 - -1074) with (d2 + 1074) by ring.
  lia.
Qed.

Lemma val_at_emin (m1 : positive) (e1 : Z) (m2 : positive) (e2 : Z) :
  valid_binary (S754_finite false m1 e1) = true ->
  valid_binary (S754_finite false m2 e2) = true ->
  SFleb (S754_finite false m1 e1) (S754_finite false m2 e2) = true ->
  Z.pos m1 * 2 ^ (e1 + 1074) <= Z.pos m2 * 2 ^ (e2 + 1074).
Proof.
  intros V1 V2 Hle.
  pose proof (SFleb_val_le _ _ _ _ V1 V2 Hle) as H.
  destruct (valid_finite _ _ V1) as (_ & _ & Hlo1 & _).
  destruct (valid_finite _ _ V2) as (_ & _ & Hlo2 & _).
  apply (val_le_base (-1074)) in H; [|lia|lia].
  replace (e1 - -1074) with (e1 + 1074) in H by ring.
  replace (e2 - -1074) with (e2 + 1074) in H by ring.
  lia.
Qed.

(* ---------- the operations are monotone on them ---------- *)

Ltac by_sign x := destruct x as [[|]|[|]| |[|] ? ?]; try discriminate.

Ltac order_of_results :=
  first [ reflexivity
        | apply SFleb_zero_l, round_of_nonneg
        | apply SFleb_inf_r, round_of_nonneg ].

Lemma SFmul_mono_r (x1 x2 f : spec_float) :
  valid_binary x1 = true -> valid_binary x2 = true ->
  valid_binary f = true ->
  nonneg x1 = true -> nonneg x2 = true -> finite_pos f = true ->
  SFleb x1 x2 = true ->
  SFleb (SFmul prec emax x1 f) (SFmul prec emax x2 f) = true.
Proof.
  intros V1 V2 Vf N1 N2 Nf Hle.
  by_sign f; by_sign x1; by_sign x2;
    repeat match goal with
           | |- context [SFmul prec emax (S754_finite false ?a ?b)
                                         (S754_finite false ?c ?d)] =>
               let R := fresh "R" in let E := fresh "E" in
               destruct (SFmul_finite a b c d) as [R E];
               [assumption | assumption | rewrite E; clear E]
           end;
    try order_of_results.
  apply round_of_mono; try assumption.
  apply val_le_mul_r; [lia|]. apply SFleb_val_le; assumption.
Qed.

Lemma SFmul_mono_l (f x1 x2 : spec_float) :
  valid_binary x1 = true -> valid_binary x2 = true ->
  valid_binary f = true ->
  nonneg x1 = true -> nonneg x2 = true -> finite_pos f = true ->
  SFleb x1 x2 = true ->
  SFleb (SFmul prec emax f x1) (SFmul prec emax f x2) = true.
Proof.
  intros V1 V2 Vf N1 N2 Nf Hle.
  by_sign f; by_sign x1; by_sign x2;
    repeat match goal with
           | |- context [SFmul prec emax (S754_finite false ?a ?b)
                                         (S754_finite false ?c ?d)] =>
               let R := fresh "R" in let E := fresh "E" in
               destruct (SFmul_finite a b c d) as [R E];
               [assumption | assumption | rewrite E; clear E]
           end;
    try order_of_results.
  apply round_of_mono; try assumption.
  apply val_le_mul_l; [lia|]. apply SFleb_val_le; assumption.
Qed.

Lemma SFdiv_mono (x1 x2 f : spec_float) :
  valid_binary x1 = true -> valid_binary x2 = true ->
  valid_binary f = true ->
  nonneg x1 = true -> nonneg x2 = true -> finite_pos f = true ->
  SFleb x1 x2 = true ->
  SFleb (SFdiv prec emax x1 f) (SFdiv prec emax x2 f) = true.
Proof.
  intros V1 V2 Vf N1 N2 Nf Hle.
  by_sign f; by_sign x1; by_sign x2;
    repeat match goal with
           | |- context [SFdiv prec emax (S754_finite false ?a ?b)
                                         (S754_finite false ?c ?d)] =>
               let R := fresh "R" in let E := fresh "E" in
               destruct (SFdiv_finite a b c d) as [R E];
               [assumption | rewrite E; clear E]
           end;
    try order_of_results.
  apply round_of_mono; try assumption.
  apply val_le_div; try lia.
  - unfold div_exponent. lia.
  - unfold div_exponent. lia.
  - apply SFleb_val_le; assumption.
Qed.

Lemma SFsub_mono (c x1 x2 : spec_float) :
  valid_binary x1 = true -> valid_binary x2 = true ->
  valid_binary c = true ->
  nonneg x1 = true -> nonneg x2 = true -> finite_pos c = true ->
  SFleb c x1 = true -> SFleb x1 x2 = true ->
  nonneg (SFsub prec emax x1 c) = true /\
  nonneg (SFsub prec emax x2 c) = true /\
  SFleb (SFsub prec emax x1 c) (SFsub prec emax x2 c) = true.
Proof.
  intros V1 V2 Vc N1 N2 Nc Hc Hle.
  destruct c as [[|]|[|]| |[|] mc ec]; try discriminate.
  destruct x1 as [[|]|[|]| |[|] m1 e1]; try discriminate;
    destruct x2 as [[|]|[|]| |[|] m2 e2]; try discriminate.
  - repeat split.
  - destruct (SFsub_finite m1 e1 mc ec V1 Vc) as (A & d & R & Hd & E & Hv).
    { apply val_at_emin; assumption. }
    rewrite E. repeat split; try apply round_of_nonneg.
    apply SFleb_inf_r, round_of_nonneg.
  - pose proof (val_at_emin _ _ _ _ Vc V1 Hc) as Hc1.
    pose proof (val_at_emin _ _ _ _ V1 V2 Hle) as H12.
    destruct (SFsub_finite m1 e1 mc ec V1 Vc Hc1) as (A1 & d1 & R1 & Hd1 & E1 & Hv1).
    destruct (SFsub_finite m2 e2 mc ec V2 Vc) as (A2 & d2 & R2 & Hd2 & E2 & Hv2).
    { lia. }
    rewrite E1, E2. repeat split; try apply round_of_nonneg.
    apply round_of_mono; try assumption.
    apply (val_le_sub _ _ _ _ _ _ _ Hd1 Hd2 Hv1 Hv2 H12).
Qed.

(* ---------- results stay non-negative ---------- *)

Lemma SFmul_closed (x y : spec_float) :
  valid_binary x = true -> valid_binary y = true ->
  nonneg_or_nan x = true -> nonneg_or_nan y = true ->
  nonneg_or_nan (SFmul prec emax x y) = true.
Proof.
  intros Vx Vy Nx Ny.
  by_sign x; by_sign y; try reflexivity.
  destruct (SFmul_finite _ _ _ _ Vx Vy) as [_ E]. rewrite E.
  apply nonneg_or_nan_of_nonneg, round_of_nonneg.
Qed.

Lemma SFdiv_closed (x y : spec_float) :
  valid_binary x = true ->
  nonneg_or_nan x = true -> nonneg_or_nan y = true ->
  nonneg_or_nan (SFdiv prec emax x y) = true.
Proof.
  intros Vx Nx Ny.
  by_sign x; by_sign y; try reflexivity.
  match goal with
  | |- context [SFdiv prec emax (S754_finite false ?a ?b)
                                (S754_finite false ?c ?d)] =>
      destruct (SFdiv_finite a b c d Vx) as [_ E]
  end.
  rewrite E. apply nonneg_or_nan_of_nonneg, round_of_nonneg.
Qed.

Lemma SFmul_nonneg_r (x f : spec_float) :
  valid_binary x = true -> valid_binary f = true ->
  nonneg x = true -> finite_pos f = true ->
  nonneg (SFmul prec emax x f) = true.
Proof.
  intros Vx Vf Nx Nf.
  by_sign x; by_sign f; try reflexivity.
  destruct (SFmul_finite _ _ _ _ Vx Vf) as [_ E]. rewrite E.
  apply round_of_nonneg.
Qed.

Lemma SFmul_nonneg_l (f x : spec_float) :
  valid_binary x = true -> valid_binary f = true ->
  nonneg x = true -> finite_pos f = true ->
  nonneg (SFmul prec emax f x) = true.
Proof.
  intros Vx Vf Nx Nf.
  by_sign x; by_sign f; try reflexivity.
  destruct (SFmul_finite _ _ _ _ Vf Vx) as [_ E]. rewrite E.
  apply round_of_nonneg.
Qed.

Lemma SFdiv_nonneg (x f : spec_float) :
  valid_binary x = true ->
  nonneg x = true -> finite_pos f = true ->
  nonneg (SFdiv prec emax x f) = true.
Proof.
  intros Vx Nx Nf.
  by_sign x; by_sign f; try reflexivity.
  match goal with
  | |- context [SFdiv prec emax (S754_finite false ?a ?b)
                                (S754_finite false ?c ?d)] =>
      destruct (SFdiv_finite a b c d Vx) as [_ E]
  end.
  rewrite E. apply round_of_nonneg.
Qed.

(* ---------- a finite result had finite operands ---------- *)

Lemma SFmul_finite_inv (x y : spec_float) :
  nonneg_or_nan x = true -> nonneg_or_nan y = true ->
  finite_pos (SFmul prec emax x y) = true ->
  finite_pos x = true /\ finite_pos y = true.
Proof.
  intros Nx Ny.
  by_sign x; by_sign y; try (intros E; discriminate E).
  intros _. split; reflexivity.
Qed.

Lemma SFdiv_finite_inv (x f : spec_float) :
  nonneg_or_nan x = true -> finite_pos f = true ->
  finite_pos (SFdiv prec emax x f) = true ->
  finite_pos x = true.
Proof.
  intros Nx Nf.
  by_sign x; by_sign f; try (intros E; discriminate E).
  intros _. reflexivity.
Qed.

(** The baseline cost [c] of a call that returns without a NaN: were it
    NaN or infinite, the first delta [w - c] or its percentage would be
    NaN. *)
Lemma baseline_finite (c w h : spec_float) :
  nonneg_or_nan c = true ->
  SFeqb c (S754_zero false) = false ->
  SFeqb (SFsub prec emax w c) (SFsub prec emax w c) = true ->
  SFeqb (SFmul prec emax (SFdiv prec emax (SFsub prec emax w c) c) h)
        (SFmul prec emax (SFdiv prec emax (SFsub prec emax w c) c) h) = true ->
  finite_pos c = true.
Proof.
  intros Nc Hz Hd Hp.
  by_sign c; try reflexivity.
  - destruct w as [[|]|[|]| |[|] mw ew]; try discriminate Hd; discriminate Hp.
  - destruct w as [[|]|[|]| |[|] mw ew]; discriminate Hd.
Qed.

(* ---------- a factor of at least one ---------- *)

Lemma SFmul_ge_l (b k : spec_float) :
  valid_binary b = true -> valid_binary k = true ->
  finite_pos b = true -> finite_pos k = true ->
  SFleb SF_one k = true ->
  SFleb b (SFmul prec emax b k) = true.
Proof.
  intros Vb Vk Nb Nk Hk.
  destruct b as [[|]|[|]| |[|] mb eb]; try discriminate.
  destruct k as [[|]|[|]| |[|] mk ek]; try discriminate.
  destruct (SFmul_finite _ _ _ _ Vb Vk) as [R E]. rewrite E.
  rewrite <- (round_of_finite mb eb Vb) at 1.
  apply round_of_mono; [apply round_input_finite; assumption | assumption |].
  assert (V1 : valid_binary SF_one = true) by reflexivity.
  pose proof (SFleb_val_le _ _ _ _ V1 Vk Hk) as H.
  unfold val_le in H. set (mu := Z.min (-52) ek) in *.
  apply (val_le_base (eb + mu)); [unfold mu; lia | unfold mu; lia |].
  replace (eb - (eb + mu)) with (- mu) by ring.
  replace (eb + ek - (eb + mu)) with (ek - mu) by ring.
  assert (T : 2 ^ (- mu) = 2 ^ 52 * 2 ^ (-52 - mu)).
  { rewrite <- Z.pow_add_r by (unfold mu; lia). f_equal. lia. }
  rewrite T. change (2 ^ 52) with 4503599627370496.
  revert H. generalize (2 ^ (-52 - mu)) (2 ^ (ek - mu)). intros p q H.
  assert (0 < Z.pos mb) by lia. nia.
Qed.

End RoundingProofs.

(* ================================================================== *)
(** * The order of the deltas in binary64

    Each operation of the function is non-decreasing in its varying
    operand on the non-negative numbers (infinity included), so the order
    of the four increase factors carries through the seven steps from the
    consumption to the percentage. *)

Section Binary64Order.

Open Scope float_scope.

Lemma Prim2SF_one : Prim2SF 1 = SF_one.
Proof. reflexivity. Qed.

Lemma Prim2SF_lit_zero : Prim2SF (lit 0) = S754_zero false.
Proof. reflexivity. Qed.

Lemma positive_nonneg_or_nan (x : float) :
  is_positive x = true -> nonneg_or_nan (Prim2SF x) = true.
Proof.
  unfold is_positive. cbn [ltb Binary64].
  rewrite FloatAxioms.ltb_spec, Prim2SF_lit_zero.
  destruct (Prim2SF x) as [[|]|[|]| |[|] m e]; cbn; congruence.
Qed.

Lemma not_nan_SFeqb (x : float) :
  is_nan x = false -> SFeqb (Prim2SF x) (Prim2SF x) = true.
Proof.
  unfold is_nan. cbn [eqb Binary64]. rewrite negb_false_iff.
  rewrite FloatAxioms.eqb_spec. trivial.
Qed.

Lemma nonneg_leb_zero (x : float) :
  nonneg (Prim2SF x) = true -> (lit 0 <=? x)%py = true.
Proof.
  intros N. cbn [leb Binary64].
  rewrite FloatAxioms.leb_spec, Prim2SF_lit_zero.
  apply SFleb_zero_l, N.
Qed.

Lemma float_mul_closed (x y : float) :
  nonneg_or_nan (Prim2SF x) = true -> nonneg_or_nan (Prim2SF y) = true ->
  nonneg_or_nan (Prim2SF (x * y)) = true.
Proof.
  intros Nx Ny. rewrite FloatAxioms.mul_spec.
  apply SFmul_closed; auto using Prim2SF_valid.
Qed.

Lemma float_div_closed (x y : float) :
  nonneg_or_nan (Prim2SF x) = true -> nonneg_or_nan (Prim2SF y) = true ->
  nonneg_or_nan (Prim2SF (x / y)) = true.
Proof.
  intros Nx Ny. rewrite FloatAxioms.div_spec.
  apply SFdiv_closed; auto using Prim2SF_valid.
Qed.

Lemma float_mul_finite_inv (x y : float) :
  nonneg_or_nan (Prim2SF x) = true -> nonneg_or_nan (Prim2SF y) = true ->
  finite_pos (Prim2SF (x * y)) = true ->
  finite_pos (Prim2SF x) = true /\ finite_pos (Prim2SF y) = true.
Proof.
  intros Nx Ny. rewrite FloatAxioms.mul_spec.
  apply SFmul_finite_inv; assumption.
Qed.

Lemma float_div_finite_inv (x f : float) :
  nonneg_or_nan (Prim2SF x) = true -> finite_pos (Prim2SF f) = true ->
  finite_pos (Prim2SF (x / f)) = true ->
  finite_pos (Prim2SF x) = true.
Proof.
  intros Nx Nf. rewrite FloatAxioms.div_spec.
  apply SFdiv_finite_inv; assumption.
Qed.

Lemma ordered_mul_r (x1 x2 f : float) :
  ordered x1 x2 -> finite_pos (Prim2SF f) = true ->
  ordered (x1 * f) (x2 * f).
Proof.
  intros (N1 & N2 & H) Nf. unfold ordered.
  rewrite FloatAxioms.leb_spec in H |- *.
  rewrite !FloatAxioms.mul_spec.
  split; [|split].
  - apply SFmul_nonneg_r; auto using Prim2SF_valid.
  - apply SFmul_nonneg_r; auto using Prim2SF_valid.
  - apply SFmul_mono_r; auto using Prim2SF_valid.
Qed.

Lemma ordered_mul_l (f x1 x2 : float) :
  finite_pos (Prim2SF f) = true -> ordered x1 x2 ->
  ordered (f * x1) (f * x2).
Proof.
  intros Nf (N1 & N2 & H). unfold ordered.
  rewrite FloatAxioms.leb_spec in H |- *.
  rewrite !FloatAxioms.mul_spec.
  split; [|split].
  - apply SFmul_nonneg_l; auto using Prim2SF_valid.
  - apply SFmul_nonneg_l; auto using Prim2SF_valid.
  - apply SFmul_mono_l; auto using Prim2SF_valid.
Qed.

Lemma ordered_div (x1 x2 f : float) :
  ordered x1 x2 -> finite_pos (Prim2SF f) = true ->
  ordered (x1 / f) (x2 / f).
Proof.
  intros (N1 & N2 & H) Nf. unfold ordered.
  rewrite FloatAxioms.leb_spec in H |- *.
  rewrite !FloatAxioms.div_spec.
  split; [|split].
  - apply SFdiv_nonneg; auto using Prim2SF_valid.
  - apply SFdiv_nonneg; auto using Prim2SF_valid.
  - apply SFdiv_mono; auto using Prim2SF_valid.
Qed.

Lemma ordered_sub (c x1 x2 : float) :
  finite_pos (Prim2SF c) = true -> ordered c x1 -> ordered x1 x2 ->
  ordered (x1 - c) (x2 - c).
Proof.
  intros Nc (_ & _ & Hc) (N1 & N2 & H). unfold ordered.
  rewrite FloatAxioms.leb_spec in Hc, H |- *.
  rewrite !FloatAxioms.sub_spec.
  apply SFsub_mono; auto using Prim2SF_valid.
Qed.

Lemma ordered_scaled (b k : float) :
  finite_pos (Prim2SF b) = true -> finite_pos (Prim2SF k) = true ->
  (1 <=? k) = true ->
  ordered b (b * k).
Proof.
  intros Nb Nk H. unfold ordered.
  rewrite FloatAxioms.leb_spec in H |- *. rewrite Prim2SF_one in H.
  rewrite !FloatAxioms.mul_spec.
  split; [|split].
  - apply finite_pos_nonneg, Nb.
  - apply SFmul_nonneg_l; auto using Prim2SF_valid, finite_pos_nonneg.
  - apply SFmul_ge_l; auto using Prim2SF_valid.
Qed.

Lemma ordered_factors (k1 k2 : float) :
  finite_pos (Prim2SF k1) = true -> finite_pos (Prim2SF k2) = true ->
  (k1 <=? k2) = true ->
  ordered k1 k2.
Proof.
  intros N1 N2 H. unfold ordered. auto using finite_pos_nonneg.
Qed.

(** ** The steps of the function *)

Section Steps.

Variables fe ad fp : float.

Hypothesis consumption_finite :
  finite_pos (Prim2SF (consumption_value fe)) = true.
Hypothesis distance_finite :
  finite_pos (Prim2SF (ad * miles_to_km)) = true.
Hypothesis price_finite :
  finite_pos (Prim2SF (price_value fp)) = true.
Hypothesis cost_finite :
  finite_pos (Prim2SF (base_fuel_cost_value fe ad fp)) = true.

Lemma hundred_finite : finite_pos (Prim2SF (lit 100)) = true.
Proof. reflexivity. Qed.

(** Lines 60-61 are non-decreasing in the consumption. *)
Lemma cost_of_consumption_ordered (c1 c2 : float) :
  ordered c1 c2 ->
  ordered (fuel_per_year_value c1 ad * price_value fp)
          (fuel_per_year_value c2 ad * price_value fp).
Proof.
  intros H. unfold fuel_per_year_value. cbn [mul div Binary64].
  apply ordered_mul_r; [|exact price_finite].
  apply ordered_mul_r; [|exact distance_finite].
  apply ordered_div; [exact H | exact hundred_finite].
Qed.

Lemma new_cost_ordered (r1 r2 : float) :
  finite_pos (Prim2SF (lit 1 + fuel_increase_value r1)%py) = true ->
  finite_pos (Prim2SF (lit 1 + fuel_increase_value r2)%py) = true ->
  (lit 1 + fuel_increase_value r1 <=? lit 1 + fuel_increase_value r2)%py
  = true ->
  ordered (new_fuel_cost_value fe ad fp r1) (new_fuel_cost_value fe ad fp r2).
Proof.
  intros N1 N2 H. unfold new_fuel_cost_value.
  apply cost_of_consumption_ordered.
  apply ordered_mul_l; [exact consumption_finite|].
  apply ordered_factors; assumption.
Qed.

Lemma base_cost_le_new_cost (r : float) :
  finite_pos (Prim2SF (lit 1 + fuel_increase_value r)%py) = true ->
  (lit 1 <=? lit 1 + fuel_increase_value r)%py = true ->
  ordered (base_fuel_cost_value fe ad fp) (new_fuel_cost_value fe ad fp r).
Proof.
  intros N H. unfold new_fuel_cost_value, base_fuel_cost_value.
  apply cost_of_consumption_ordered.
  apply ordered_scaled; assumption.
Qed.

Lemma cost_difference_ordered (r1 r2 : float) :
  finite_pos (Prim2SF (lit 1 + fuel_increase_value r1)%py) = true ->
  finite_pos (Prim2SF (lit 1 + fuel_increase_value r2)%py) = true ->
  (lit 1 <=? lit 1 + fuel_increase_value r1)%py = true ->
  (lit 1 + fuel_increase_value r1 <=? lit 1 + fuel_increase_value r2)%py
  = true ->
  ordered (cost_difference_value fe ad fp r1)
          (cost_difference_value fe ad fp r2).
Proof.
  intros N1 N2 H1 H12. unfold cost_difference_value. cbn [sub Binary64].
  apply ordered_sub.
  - exact cost_finite.
  - apply base_cost_le_new_cost; assumption.
  - apply new_cost_ordered; assumption.
Qed.

Lemma percentage_ordered (r1 r2 : float) :
  finite_pos (Prim2SF (lit 1 + fuel_increase_value r1)%py) = true ->
  finite_pos (Prim2SF (lit 1 + fuel_increase_value r2)%py) = true ->
  (lit 1 <=? lit 1 + fuel_increase_value r1)%py = true ->
  (lit 1 + fuel_increase_value r1 <=? lit 1 + fuel_increase_value r2)%py
  = true ->
  ordered (percentage_increase_value fe ad fp r1)
          (percentage_increase_value fe ad fp r2).
Proof.
  intros N1 N2 H1 H12. unfold percentage_increase_value.
  cbn [mul div Binary64].
  apply ordered_mul_r; [|exact hundred_finite].
  apply ordered_div; [|exact cost_finite].
  apply cost_difference_ordered; assumption.
Qed.

End Steps.

(** ** A call that returns without a NaN has a finite baseline *)

Lemma baseline_cost_finite (fe ad fp r : float) :
  is_positive fe = true -> is_positive ad = true -> is_positive fp = true ->
  (base_fuel_cost_value fe ad fp == lit 0)%py = false ->
  is_nan (cost_difference_value fe ad fp r) = false ->
  is_nan (percentage_increase_value fe ad fp r) = false ->
  finite_pos (Prim2SF (consumption_value fe)) = true /\
  finite_pos (Prim2SF (ad * miles_to_km)) = true /\
  finite_pos (Prim2SF (price_value fp)) = true /\
  finite_pos (Prim2SF (base_fuel_cost_value fe ad fp)) = true.
Proof.
  intros Hfe Had Hfp Hz Hd Hp.
  apply positive_nonneg_or_nan in Hfe, Had, Hfp.
  assert (Lit : forall q, finite_pos (Prim2SF (lit q)) = true ->
                          nonneg_or_nan (Prim2SF (lit q)) = true).
  { intros q Hq. apply nonneg_or_nan_of_nonneg, finite_pos_nonneg, Hq. }
  assert (Nb : nonneg_or_nan (Prim2SF (consumption_value fe)) = true).
  { unfold consumption_value, mpg_to_l_per_100km. cbn [div Binary64].
    apply float_div_closed; [apply Lit; reflexivity | exact Hfe]. }
  assert (Ny : nonneg_or_nan (Prim2SF (ad * miles_to_km)) = true).
  { unfold miles_to_km.
    apply float_mul_closed; [exact Had | apply Lit; reflexivity]. }
  assert (Nz : nonneg_or_nan (Prim2SF (price_value fp)) = true).
  { unfold price_value. cbn [div Binary64].
    apply float_div_closed; [exact Hfp | apply Lit; reflexivity]. }
  assert (Nu : nonneg_or_nan (Prim2SF (consumption_value fe / lit 100)) = true).
  { apply float_div_closed; [exact Nb | apply Lit; reflexivity]. }
  assert (Nv : nonneg_or_nan
                 (Prim2SF (fuel_per_year_value (consumption_value fe) ad))
               = true).
  { unfold fuel_per_year_value. cbn [mul div Binary64].
    apply float_mul_closed; assumption. }
  assert (Nc : nonneg_or_nan (Prim2SF (base_fuel_cost_value fe ad fp)) = true).
  { unfold base_fuel_cost_value. cbn [mul Binary64].
    apply float_mul_closed; assumption. }
  assert (Fc : finite_pos (Prim2SF (base_fuel_cost_value fe ad fp)) = true).
  { apply (baseline_finite _ (Prim2SF (new_fuel_cost_value fe ad fp r))
             (Prim2SF (lit 100)) Nc).
    - cbn [eqb Binary64] in Hz. rewrite FloatAxioms.eqb_spec in Hz.
      exact Hz.
    - apply not_nan_SFeqb in Hd. unfold cost_difference_value in Hd.
      cbn [sub Binary64] in Hd. rewrite FloatAxioms.sub_spec in Hd.
      exact Hd.
    - apply not_nan_SFeqb in Hp.
      unfold percentage_increase_value, cost_difference_value in Hp.
      cbn [mul div sub Binary64] in Hp.
      rewrite FloatAxioms.mul_spec, FloatAxioms.div_spec,
        FloatAxioms.sub_spec in Hp.
      exact Hp. }
  pose proof Fc as Fc'. unfold base_fuel_cost_value in Fc'.
  cbn [mul Binary64] in Fc'.
  apply float_mul_finite_inv in Fc'; [|assumption|assumption].
  destruct Fc' as [Fv Fz].
  unfold fuel_per_year_value in Fv. cbn [mul div Binary64] in Fv.
  apply float_mul_finite_inv in Fv; [|assumption|assumption].
  destruct Fv as [Fu Fy].
  apply float_div_finite_inv in Fu; [|assumption|reflexivity].
  repeat split; assumption.
Qed.

Lemma no_nan_second (a b : float) (l : list float) :
  no_nan (a :: b :: l) = true -> is_nan b = false.
Proof.
  unfold no_nan. cbn [forallb].
  rewrite !andb_true_iff, !negb_true_iff. intros (_ & Hb & _). exact Hb.
Qed.

Lemma Ok_inj {A : Type} (x y : A) : Ok x = Ok y -> x = y.
Proof. intros E. injection E as E. exact E. Qed.

End Binary64Order.

Section ReadingDeltas.

Context {num : Type} `{PyFloat num}.

Open Scope string_scope.
Open Scope py_scope.

Lemma absolute_deltas_value (L : lawful) (fe ad fp : num) :
  divides_by_zero fe ad fp = false ->
  absolute_deltas fe ad fp =
  Ok [ lit 0.00; cost_difference_value fe ad fp (lit 7.2);
       cost_difference_value fe ad fp (lit 8.4);
       cost_difference_value fe ad fp (lit 9.8);
       cost_difference_value fe ad fp (lit 11.0) ].
Proof.
  intros Hz. unfold absolute_deltas. rewrite (calc_returns L) by assumption.
  reflexivity.
Qed.

Lemma percent_deltas_value (L : lawful) (fe ad fp : num) :
  divides_by_zero fe ad fp = false ->
  percent_deltas fe ad fp =
  Ok [ lit 0.00; percentage_increase_value fe ad fp (lit 7.2);
       percentage_increase_value fe ad fp (lit 8.4);
       percentage_increase_value fe ad fp (lit 9.8);
       percentage_increase_value fe ad fp (lit 11.0) ].
Proof.
  intros Hz. unfold percent_deltas. rewrite (calc_returns L) by assumption.
  reflexivity.
Qed.

Lemma deltas_raise (L : lawful) (fe ad fp : num) :
  divides_by_zero fe ad fp = true ->
  absolute_deltas fe ad fp = Raise ZeroDivisionError.
Proof.
  intros Hz. unfold absolute_deltas. rewrite (calc_raises L) by assumption.
  reflexivity.
Qed.

Lemma nondecreasing_five (a b c d e : num) :
  (a <=? b) = true -> (b <=? c) = true -> (c <=? d) = true ->
  (d <=? e) = true ->
  nondecreasing [a; b; c; d; e] = true.
Proof.
  intros Hab Hbc Hcd Hde. cbn [nondecreasing].
  rewrite Hab, Hbc, Hcd, Hde. reflexivity.
Qed.

End ReadingDeltas.

Section Binary64Monotone.

Open Scope string_scope.
Open Scope float_scope.

Ltac by_evaluation := vm_compute; reflexivity.

(** C4, amended.  In binary64: for every strictly positive input on which
    the call returns and no entry of either mapping is NaN, both mappings,
    read in the order A, B, C, D, E, are non-decreasing. *)
Theorem deltas_nondecreasing_without_nan (fe ad fp : float)
    (vs ps : list float) :
  is_positive fe = true -> is_positive ad = true -> is_positive fp = true ->
  absolute_deltas fe ad fp = Ok vs ->
  percent_deltas fe ad fp = Ok ps ->
  no_nan vs = true -> no_nan ps = true ->
  nondecreasing vs = true /\ nondecreasing ps = true.
Proof.
  intros Hfe Had Hfp Ea Ep Na Np.
  destruct (divides_by_zero fe ad fp) eqn:Hdiv.
  { rewrite (deltas_raise Binary64_lawful) in Ea by assumption.
    discriminate Ea. }
  rewrite (absolute_deltas_value Binary64_lawful) in Ea by assumption.
  rewrite (percent_deltas_value Binary64_lawful) in Ep by assumption.
  rewrite (positive_divides_by_zero Binary64_lawful _ _ _ Hfe) in Hdiv.
  apply Ok_inj in Ea, Ep. subst vs ps.
  pose proof (no_nan_second _ _ _ Na) as Hd.
  pose proof (no_nan_second _ _ _ Np) as Hp.
  destruct (baseline_cost_finite fe ad fp (lit 7.2) Hfe Had Hfp Hdiv Hd Hp)
    as (Fb & Fy & Fz & Fc).
  pose proof (cost_difference_ordered fe ad fp Fb Fy Fz Fc) as HD.
  pose proof (percentage_ordered fe ad fp Fb Fy Fz Fc) as HP.
  destruct (HD (lit 7.2) (lit 8.4)) as (NdB & _ & HdBC); try by_evaluation.
  destruct (HD (lit 8.4) (lit 9.8)) as (_ & _ & HdCD); try by_evaluation.
  destruct (HD (lit 9.8) (lit 11.0)) as (_ & _ & HdDE); try by_evaluation.
  destruct (HP (lit 7.2) (lit 8.4)) as (NpB & _ & HpBC); try by_evaluation.
  destruct (HP (lit 8.4) (lit 9.8)) as (_ & _ & HpCD); try by_evaluation.
  destruct (HP (lit 9.8) (lit 11.0)) as (_ & _ & HpDE); try by_evaluation.
  apply nonneg_leb_zero in NdB, NpB.
  split; apply nondecreasing_five; assumption.
Qed.

Lemma deltas_nondecreasing_without_nan_witness :
  nondecreasing [0; 0.35249478008123347; 0.95677154593477098;
                 1.6617611060972344; 2.2660378719507683] = true /\
  nondecreasing [0; 1.6153846153846279; 4.384615384615393;
                 7.6153846153846319; 10.384615384615381] = true.
Proof.
  apply (deltas_nondecreasing_without_nan 40 12000 1.6); reflexivity.
Defined.

End Binary64Monotone.

(* ================================================================== *)
(** * Beyond the claims: the loop, the form, and not-a-number inputs *)

Section LoopInvariant.

Context {num : Type} `{PyFloat num}.

Open Scope string_scope.
Open Scope py_scope.

Lemma dict_keys_set {V W : Type} (d1 : dict V) (d2 : dict W)
    (k : string) (v : V) (w : W) :
  dict_keys d1 = dict_keys d2 ->
  dict_keys (dict_set d1 k v) = dict_keys (dict_set d2 k w).
Proof.
  revert d2. induction d1 as [|[k1 v1] d1 IH]; intros [|[k2 v2] d2] E;
    try discriminate; [reflexivity|].
  cbn in E. injection E as -> E. cbn.
  destruct (String.eqb k2 k); cbn; f_equal.
  - exact E.
  - apply IH. exact E.
Qed.

Lemma loop_body_keys (ad : num) (b : baseline) (item : string * num)
    (cd pi cd' pi' : dict num) :
  dict_keys cd = dict_keys pi ->
  loop_body ad b (cd, pi) item = Ok (cd', pi') ->
  dict_keys cd' = dict_keys pi'.
Proof.
  intros Hk. unfold loop_body. destruct item as [grade rrc].
  destruct (String.eqb grade "A").
  - intros E. injection E as <- <-. assumption.
  - unfold truediv. cbn -[lit].
    repeat match goal with
           | |- context [eqb ?a ?b] => destruct (eqb a b); cbn -[lit]
           end;
      intros E; try discriminate E.
    injection E as <- <-. apply dict_keys_set. assumption.
Qed.

(** X1. The loop keeps the two dictionaries on the same keys: started on
    dictionaries with equal key lists, over any list of grade items and
    with any baseline, a run of the loop that completes leaves
    [cost_differences] and [percentage_increase] with equal key lists, in
    the same order. *)
Theorem loop_keeps_keys_equal (ad : num) (b : baseline)
    (items : list (string * num)) (cd pi cd' pi' : dict num) :
  dict_keys cd = dict_keys pi ->
  for_each (loop_body ad b) items (cd, pi) = Ok (cd', pi') ->
  dict_keys cd' = dict_keys pi'.
Proof.
  revert cd pi. induction items as [|item items IH]; intros cd pi Hk.
  - cbn. intros E. injection E as <- <-. assumption.
  - cbn [for_each].
    destruct (loop_body ad b (cd, pi) item) as [[cd1 pi1]|e] eqn:Hb;
      cbn [bind]; [|intros E; discriminate E].
    apply IH. apply (loop_body_keys _ _ _ _ _ _ _ Hk Hb).
Qed.

End LoopInvariant.

Section FormShape.

Context {num : Type} `{PyFloat num}.

Variable format_2f : num -> string.

Open Scope string_scope.
Open Scope py_scope.

(** The page after a press of the button that does not fail. *)
Lemma on_calculate_value (L : lawful) (fe ad fp : num) (page : list string) :
  on_calculate format_2f true fe ad fp page =
  if divides_by_zero fe ad fp then Raise ZeroDivisionError
  else
    Ok (page ++
        [ heading;
          grade_line format_2f "A" (lit 0.00) (lit 0.00);
          grade_line format_2f "B"
            (cost_difference_value fe ad fp (lit 7.2))
            (percentage_increase_value fe ad fp (lit 7.2));
          grade_line format_2f "C"
            (cost_difference_value fe ad fp (lit 8.4))
            (percentage_increase_value fe ad fp (lit 8.4));
          grade_line format_2f "D"
            (cost_difference_value fe ad fp (lit 9.8))
            (percentage_increase_value fe ad fp (lit 9.8));
          grade_line format_2f "E"
            (cost_difference_value fe ad fp (lit 11.0))
            (percentage_increase_value fe ad fp (lit 11.0)) ])%list.
Proof.
  unfold on_calculate. rewrite (calc_outcome L).
  destruct (divides_by_zero fe ad fp); [reflexivity|].
  cbn [bind]. unfold cost_differences_value, percentage_increase_dict_value.
  cbn [dict_keys map fst for_each write_grade dict_get bind
       String.eqb Ascii.eqb Bool.eqb].
  rewrite <- !app_assoc. reflexivity.
Qed.

(** The page-as-state handler and [on_calculate] agree on the page of a
    press that does not fail and on the exception of one that does. *)
Lemma script_for_write_grade (cd pi : dict num) (keys : list string)
    (page : list string) :
  for_each (write_grade format_2f cd pi) keys page =
  match script_for (write_grade_line format_2f cd pi) keys page with
  | (page', Ok _) => Ok page'
  | (_, Raise e) => Raise e
  end.
Proof.
  revert page. induction keys as [|k keys IH]; intros page; [reflexivity|].
  cbn [for_each script_for]. unfold write_grade, write_grade_line.
  unfold script_bind at 1 2 3. unfold script_of, st_write.
  destruct (dict_get cd k) as [c|e]; cbn [bind]; [|reflexivity].
  destruct (dict_get pi k) as [q|e]; cbn [bind]; [|reflexivity].
  apply IH.
Qed.

Lemma press_button_on_calculate (clicked : bool) (fe ad fp : num)
    (page : list string) :
  on_calculate format_2f clicked fe ad fp page =
  match press_button format_2f clicked fe ad fp page with
  | (page', Ok _) => Ok page'
  | (_, Raise e) => Raise e
  end.
Proof.
  unfold on_calculate, press_button.
  destruct clicked; [|reflexivity].
  unfold script_bind at 1 2. unfold script_of, st_write.
  destruct (calculate_fuel_costs_by_grade fe ad fp) as [[cd pi]|e];
    cbn [bind]; [|reflexivity].
  apply script_for_write_grade.
Qed.

End FormShape.

Section Binary64Form.

Open Scope string_scope.
Open Scope float_scope.

(** X2. The button handler, with the page as state.  Without a press
    nothing is computed or written.  With a press the handler either
    raises [ZeroDivisionError] and leaves the page exactly as it was
    (when the call divides by zero: the call comes before the first
    write), or appends to the page the heading and then one line per grade
    in the order A, B, C, D, E, each built from that grade's two deltas;
    the lookups at line 89 never raise [KeyError]. *)
Theorem press_button_outcome (format_2f : float -> string)
    (fe ad fp : float) (page : list string) :
  press_button format_2f false fe ad fp page = (page, Ok tt) /\
  press_button format_2f true fe ad fp page =
  if divides_by_zero fe ad fp then (page, Raise ZeroDivisionError)
  else
    ((page ++
      [ heading;
        grade_line format_2f "A" 0 0;
        grade_line format_2f "B"
          (cost_difference_value fe ad fp 7.2)
          (percentage_increase_value fe ad fp 7.2);
        grade_line format_2f "C"
          (cost_difference_value fe ad fp 8.4)
          (percentage_increase_value fe ad fp 8.4);
        grade_line format_2f "D"
          (cost_difference_value fe ad fp 9.8)
          (percentage_increase_value fe ad fp 9.8);
        grade_line format_2f "E"
          (cost_difference_value fe ad fp 11)
          (percentage_increase_value fe ad fp 11) ])%list,
     Ok tt).
Proof.
  split; [reflexivity|].
  unfold press_button, script_bind, script_of.
  rewrite (calc_outcome Binary64_lawful).
  destruct (divides_by_zero fe ad fp); [reflexivity|].
  unfold cost_differences_value, percentage_increase_dict_value.
  cbn [dict_keys map fst script_for write_grade_line script_bind script_of
       st_write dict_get String.eqb Ascii.eqb Bool.eqb].
  rewrite <- !app_assoc. reflexivity.
Qed.

End Binary64Form.

Section Binary64NaN.

Open Scope string_scope.
Open Scope float_scope.

Lemma SFcompare_refl (s : spec_float) :
  s <> S754_nan -> SFcompare s s = Some Eq.
Proof.
  destruct s as [sg | sg | | sg m e]; intros Hs; try congruence;
    try (destruct sg; reflexivity).
  cbn. rewrite Z.compare_refl, Pos.compare_cont_refl.
  destruct sg; reflexivity.
Qed.

Lemma float_is_nan (x : float) : is_nan x = true -> x = nan.
Proof.
  unfold is_nan. cbn [eqb Binary64]. rewrite negb_true_iff.
  rewrite FloatAxioms.eqb_spec. intros E.
  apply Prim2SF_inj. change (Prim2SF nan) with S754_nan.
  destruct (Prim2SF x) eqn:Hx; try reflexivity;
    unfold SFeqb in E; rewrite SFcompare_refl in E; congruence.
Qed.

Lemma float_mul_nan_l (y : float) : nan * y = nan.
Proof.
  apply Prim2SF_inj. rewrite FloatAxioms.mul_spec.
  change (Prim2SF nan) with S754_nan. reflexivity.
Qed.

Lemma float_mul_nan_r (x : float) : x * nan = nan.
Proof.
  apply Prim2SF_inj. rewrite FloatAxioms.mul_spec.
  change (Prim2SF nan) with S754_nan.
  destruct (Prim2SF x); reflexivity.
Qed.

Lemma float_div_nan_r (x : float) : x / nan = nan.
Proof.
  apply Prim2SF_inj. rewrite FloatAxioms.div_spec.
  change (Prim2SF nan) with S754_nan.
  destruct (Prim2SF x); reflexivity.
Qed.

Ltac nan_steps :=
  repeat first
    [ rewrite float_mul_nan_l
    | rewrite float_mul_nan_r
    | progress change (nan / lit 100) with nan ];
  reflexivity.

(** X3. A not-a-number input is not rejected: if any of the three inputs
    is NaN and the fuel economy does not equal zero, the call returns
    normally, with 0 for grade A and NaN for every other grade in both
    mappings. *)
Theorem nan_input_gives_nan_deltas (fe ad fp : float) :
  (is_nan fe || is_nan ad || is_nan fp) = true ->
  (fe == lit 0)%py = false ->
  calculate_fuel_costs_by_grade fe ad fp =
  Ok ([("A", 0); ("B", nan); ("C", nan); ("D", nan); ("E", nan)],
      [("A", 0); ("B", nan); ("C", nan); ("D", nan); ("E", nan)]).
Proof.
  intros Hnan Hfe.
  assert (Hcost : base_fuel_cost_value fe ad fp = nan /\
                  forall rrc, new_fuel_cost_value fe ad fp rrc = nan).
  { unfold new_fuel_cost_value, base_fuel_cost_value, fuel_per_year_value,
      price_value, consumption_value.
    cbn [mul div add sub Binary64].
    apply orb_true_iff in Hnan. destruct Hnan as [Hnan | Hnan];
      [apply orb_true_iff in Hnan; destruct Hnan as [Hnan | Hnan]|];
      apply float_is_nan in Hnan; subst.
    - rewrite float_div_nan_r. split; [|intros rrc]; nan_steps.
    - split; [|intros rrc]; nan_steps.
    - split; [|intros rrc]; nan_steps. }
  destruct Hcost as [Hbase Hnew].
  rewrite (calc_returns Binary64_lawful).
  - unfold cost_differences_value, percentage_increase_dict_value,
      percentage_increase_value, cost_difference_value.
    rewrite Hbase, !Hnew. reflexivity.
  - unfold divides_by_zero. rewrite Hfe, Hbase. reflexivity.
Qed.

Lemma nan_input_gives_nan_deltas_witness :
  is_nan nan = true /\
  calculate_fuel_costs_by_grade 40 nan 1.6 =
  Ok ([("A", 0); ("B", nan); ("C", nan); ("D", nan); ("E", nan)],
      [("A", 0); ("B", nan); ("C", nan); ("D", nan); ("E", nan)]).
Proof.
  split; [reflexivity|].
  apply (nan_input_gives_nan_deltas 40 nan 1.6); reflexivity.
Defined.

End Binary64NaN.

Lemma loop_keeps_keys_equal_witness :
  exists cd' pi' : dict float,
    for_each
      (loop_body 12000%float
         {| base_fuel_consumption_l_per_100km := 7.062%float;
            fuel_price_pounds := 0.016%float;
            base_fuel_per_year_l := 1363.82%float;
            base_fuel_cost := 21.82%float |})
      [("E", 11%float); ("B", 7.2%float); ("A", 6.5%float)]%string
      ([("A", 0%float)], [("A", 0%float)])%string
    = Ok (cd', pi') /\
    dict_keys cd' = dict_keys pi'.
Proof.
  match goal with
  | |- exists cd' pi', ?run = _ /\ _ =>
      destruct run as [[cd' pi']|e] eqn:E
  end.
  - exists cd', pi'. split; [reflexivity|].
    apply (loop_keeps_keys_equal _ _ _ _ _ _ _ eq_refl E).
  - vm_compute in E. discriminate E.
Defined.

(* ================================================================== *)
(** * Beyond the claims: the formula in exact arithmetic *)

Section ExactFormula.

Open Scope string_scope.
Open Scope Q_scope.

Ltac exact_unfold :=
  unfold percentage_increase_value, cost_difference_value,
    new_fuel_cost_value, fuel_increase_value, base_fuel_cost_value,
    fuel_per_year_value, price_value, consumption_value,
    mpg_to_l_per_100km, miles_to_km, fuel_savings_rate in *;
  cbn [lit add sub mul div Exact] in *.

Ltac find_entry :=
  cbn [dict_get lookups bind fst snd String.eqb Ascii.eqb Bool.eqb grades];
  reflexivity.

Lemma Exact_ltb (x y : Q) : ltb x y = true <-> x < y.
Proof.
  cbn [ltb Exact]. rewrite negb_true_iff. split.
  - intros E. apply Qnot_le_lt. intros Hle.
    apply Qle_bool_iff in Hle. congruence.
  - intros Hlt. destruct (Qle_bool y x) eqn:E; [|reflexivity].
    apply Qle_bool_iff in E. exfalso. apply (Qlt_not_le _ _ Hlt E).
Qed.

Lemma Exact_eqb (x : Q) : eqb x (lit 0) = true <-> x == 0.
Proof. cbn [eqb lit Exact]. apply Qeq_bool_iff. Qed.

Lemma Exact_base_cost_factors (fe ad fp : Q) :
  ~ fe == 0 ->
  base_fuel_cost_value fe ad fp == 282.48 * 1.60934 / 10000 * (ad * fp / fe).
Proof. intros Hfe. exact_unfold. field. assumption. Qed.

Lemma Exact_base_cost_zero_iff (fe ad fp : Q) :
  ~ fe == 0 ->
  base_fuel_cost_value fe ad fp == 0 <-> ad == 0 \/ fp == 0.
Proof.
  intros Hfe. rewrite (Exact_base_cost_factors _ _ _ Hfe). split.
  - intros E.
    assert (Hp : ad * fp == 0).
    { transitivity
        (282.48 * 1.60934 / 10000 * (ad * fp / fe) * fe
         / (282.48 * 1.60934 / 10000)).
      - field. assumption.
      - rewrite E. reflexivity. }
    apply Qmult_integral in Hp. assumption.
  - intros [E | E]; rewrite E; field; assumption.
Qed.

Lemma Exact_divides_by_zero_iff (fe ad fp : Q) :
  divides_by_zero fe ad fp = true <-> fe == 0 \/ ad == 0 \/ fp == 0.
Proof.
  unfold divides_by_zero. rewrite orb_true_iff, !Exact_eqb.
  split.
  - intros [E | E]; [left; assumption|].
    destruct (Qeq_dec fe 0) as [Hfe | Hfe]; [left; assumption|].
    right. apply (Exact_base_cost_zero_iff _ _ _ Hfe). assumption.
  - intros [E | E]; [left; assumption|].
    destruct (Qeq_dec fe 0) as [Hfe | Hfe]; [left; assumption|].
    right. apply (Exact_base_cost_zero_iff _ _ _ Hfe). assumption.
Qed.

(** X4. In exact arithmetic the call raises [ZeroDivisionError] exactly
    when one of the three inputs is zero, and returns exactly when none
    is. *)
Theorem exact_raises_iff_some_input_zero (fe ad fp : Q) :
  (calculate_fuel_costs_by_grade fe ad fp = Raise ZeroDivisionError <->
   fe == 0 \/ ad == 0 \/ fp == 0) /\
  (returns (calculate_fuel_costs_by_grade fe ad fp) = true <->
   ~ fe == 0 /\ ~ ad == 0 /\ ~ fp == 0).
Proof.
  rewrite (calc_outcome Exact_lawful).
  pose proof (Exact_divides_by_zero_iff fe ad fp) as Hz.
  destruct (divides_by_zero fe ad fp); cbn [returns]; split; split.
  - intros _. apply Hz. reflexivity.
  - reflexivity.
  - discriminate.
  - intros (Hfe & Had & Hfp).
    destruct (proj1 Hz eq_refl) as [E | [E | E]]; contradiction.
  - discriminate.
  - intros E. apply Hz in E. discriminate.
  - intros _. repeat split; intros E; 
      assert (false = true) by (apply Hz; auto); discriminate.
  - reflexivity.
Qed.


Lemma Exact_calc_returns_nz (fe ad fp : Q) :
  ~ fe == 0 -> ~ ad == 0 -> ~ fp == 0 ->
  calculate_fuel_costs_by_grade fe ad fp =
  Ok (cost_differences_value fe ad fp, percentage_increase_dict_value fe ad fp).
Proof.
  intros Hfe Had Hfp. apply (calc_returns Exact_lawful).
  destruct (divides_by_zero fe ad fp) eqn:Hz; [|reflexivity].
  apply Exact_divides_by_zero_iff in Hz.
  destruct Hz as [E | [E | E]]; contradiction.
Qed.

Lemma Exact_cost_difference_nz (fe ad fp rrc : Q) :
  ~ fe == 0 ->
  cost_difference_value fe ad fp rrc ==
  base_fuel_cost_value fe ad fp * fuel_increase_value rrc.
Proof. intros Hfe. exact_unfold. field. assumption. Qed.

Lemma Exact_percentage_nz (fe ad fp rrc : Q) :
  ~ fe == 0 -> ~ ad == 0 -> ~ fp == 0 ->
  percentage_increase_value fe ad fp rrc == fuel_increase_value rrc * 100.
Proof. intros Hfe Had Hfp. exact_unfold. field. repeat split; assumption. Qed.

Lemma Exact_fuel_increase_linear (rrc : Q) :
  fuel_increase_value rrc == 0.015 * 100 / (6.5 * 10) * (rrc - 6.5).
Proof. exact_unfold. field. Qed.

Lemma Exact_pos_nz (x : Q) : is_positive x = true -> ~ x == 0.
Proof. intros Hx. apply Exact_positive_nonzero, Exact_positive, Hx. Qed.

Lemma Exact_fuel_increase_strict :
  0 < fuel_increase_value (num := Q) 7.2 /\
  fuel_increase_value (num := Q) 7.2 < fuel_increase_value 8.4 /\
  fuel_increase_value (num := Q) 8.4 < fuel_increase_value 9.8 /\
  fuel_increase_value (num := Q) 9.8 < fuel_increase_value 11.0.
Proof. repeat split. Qed.

Lemma Exact_cost_difference_lt (fe ad fp r1 r2 : Q) :
  0 < fe -> 0 < ad -> 0 < fp ->
  fuel_increase_value r1 < fuel_increase_value r2 ->
  cost_difference_value fe ad fp r1 < cost_difference_value fe ad fp r2.
Proof.
  intros Hfe Had Hfp Hlt.
  rewrite !Exact_cost_difference by assumption.
  apply Qmult_lt_l; [|assumption].
  apply Exact_base_cost_positive; assumption.
Qed.

Lemma Exact_cost_difference_pos (fe ad fp r : Q) :
  0 < fe -> 0 < ad -> 0 < fp ->
  0 < fuel_increase_value r ->
  0 < cost_difference_value fe ad fp r.
Proof.
  intros Hfe Had Hfp Hlt.
  rewrite Exact_cost_difference by assumption.
  apply Qmult_lt_0_compat; [|assumption].
  apply Exact_base_cost_positive; assumption.
Qed.

Lemma Exact_percentage_lt (fe ad fp r1 r2 : Q) :
  0 < fe -> 0 < ad -> 0 < fp ->
  fuel_increase_value r1 < fuel_increase_value r2 ->
  percentage_increase_value fe ad fp r1 < percentage_increase_value fe ad fp r2.
Proof.
  intros Hfe Had Hfp Hlt.
  rewrite !Exact_percentage by assumption.
  apply Qmult_lt_r; [reflexivity | assumption].
Qed.

Lemma Exact_percentage_pos (fe ad fp r : Q) :
  0 < fe -> 0 < ad -> 0 < fp ->
  0 < fuel_increase_value r ->
  0 < percentage_increase_value fe ad fp r.
Proof.
  intros Hfe Had Hfp Hlt.
  rewrite Exact_percentage by assumption.
  apply Qmult_lt_0_compat; [assumption | reflexivity].
Qed.

(** X5. In exact arithmetic, for strictly positive inputs, both mappings
    are strictly increasing in grade order A, B, C, D, E: every worse grade
    costs strictly more, in money and in percent. *)
Theorem deltas_strictly_increasing_exact (fe ad fp : Q) :
  is_positive fe = true -> is_positive ad = true -> is_positive fp = true ->
  exists vs ps,
    absolute_deltas fe ad fp = Ok vs /\
    percent_deltas fe ad fp = Ok ps /\
    increasing vs = true /\ increasing ps = true.
Proof.
  intros Hfe Had Hfp.
  unfold absolute_deltas, percent_deltas.
  rewrite !Exact_calc_returns by assumption.
  apply Exact_positive in Hfe, Had, Hfp.
  destruct Exact_fuel_increase_strict as (HB & HBC & HCD & HDE).
  unfold cost_differences_value, percentage_increase_dict_value.
  do 2 eexists. split; [find_entry|]. split; [find_entry|].
  cbn [increasing].
  rewrite !andb_true_iff, !Exact_ltb. cbn [lit Exact].
  assert (Hzero : forall x : Q, 0 < x -> 0.00 < x)
    by (intros x Hx; apply Qle_lt_trans with 0; [discriminate | assumption]).
  repeat split;
    match goal with
    | |- _ < cost_difference_value _ _ _ 7.2 =>
        apply Hzero, Exact_cost_difference_pos
    | |- _ < percentage_increase_value _ _ _ 7.2 =>
        apply Hzero, Exact_percentage_pos
    | |- cost_difference_value _ _ _ _ < _ =>
        apply Exact_cost_difference_lt
    | |- percentage_increase_value _ _ _ _ < _ =>
        apply Exact_percentage_lt
    end; assumption.
Qed.

Lemma deltas_strictly_increasing_exact_witness :
  exists vs ps,
    absolute_deltas 40 12000 1.6 = Ok vs /\
    percent_deltas 40 12000 1.6 = Ok ps /\
    increasing vs = true /\ increasing ps = true.
Proof.
  apply (deltas_strictly_increasing_exact 40 12000 1.6); reflexivity.
Defined.

Lemma Exact_base_cost_scales_economy (fe ad fp k : Q) :
  ~ fe == 0 -> ~ k == 0 ->
  base_fuel_cost_value (fe * k) ad fp * k == base_fuel_cost_value fe ad fp.
Proof.
  intros Hfe Hk. exact_unfold. field. split; assumption.
Qed.

(** X6. In exact arithmetic, for strictly positive inputs and a positive
    factor k, the call at fuel economy * k gives every absolute delta
    divided by k and every percent delta unchanged. *)
Theorem economy_scaling_exact (fe ad fp k : Q) :
  is_positive fe = true -> is_positive ad = true -> is_positive fp = true ->
  is_positive k = true ->
  forall g, In g grades ->
  exists a a' p p',
    absolute_delta fe ad fp g = Ok a /\
    absolute_delta (fe * k) ad fp g = Ok a' /\
    a' == a / k /\
    percent_delta fe ad fp g = Ok p /\
    percent_delta (fe * k) ad fp g = Ok p' /\
    p' == p.
Proof.
  intros Hfe Had Hfp Hk g Hg.
  pose proof (Exact_positive_mul _ _ Hfe Hk) as Hfek.
  unfold absolute_delta, percent_delta.
  rewrite !Exact_calc_returns by assumption.
  apply Exact_pos_nz in Hk.
  apply Exact_positive in Hfe, Had, Hfp, Hfek.
  pose proof (Exact_positive_nonzero _ Hfe) as Hfe0.
  unfold cost_differences_value, percentage_increase_dict_value.
  cbn [bind fst snd].
  cbn in Hg.
  destruct Hg as [<- | [<- | [<- | [<- | [<- | []]]]]];
    (do 4 eexists;
     split; [find_entry|]; split; [find_entry|]; split;
     [|split; [find_entry|]; split; [find_entry|]]);
    rewrite ?Exact_cost_difference, ?Exact_percentage by assumption;
    rewrite <- ?(Exact_base_cost_scales_economy fe ad fp k Hfe0 Hk);
    cbn [lit Exact]; field; assumption.
Qed.

Lemma economy_scaling_exact_witness :
  exists a a',
    absolute_delta 40 12000 1.6 "B" = Ok a /\
    absolute_delta (40 * 2) 12000 1.6 "B" = Ok a' /\
    a' == a / 2.
Proof.
  destruct (economy_scaling_exact 40 12000 1.6 2
              eq_refl eq_refl eq_refl eq_refl "B"
              (or_intror (or_introl eq_refl)))
    as (a & a' & p & p' & E1 & E2 & Heq & _).
  exists a, a'. repeat split; assumption.
Defined.


(** X7. In exact arithmetic, for inputs none of which is zero, the two
    mappings agree with the baseline cost of line 41: for every grade the
    absolute delta equals baseline cost * percent delta / 100. *)
Theorem absolute_is_percent_of_baseline_exact (fe ad fp : Q) :
  ~ fe == 0 -> ~ ad == 0 -> ~ fp == 0 ->
  exists b,
    baseline_of fe ad fp = Ok b /\
    forall g, In g grades ->
    exists a p,
      absolute_delta fe ad fp g = Ok a /\
      percent_delta fe ad fp g = Ok p /\
      a == base_fuel_cost b * p / 100.
Proof.
  intros Hfe Had Hfp.
  eexists. split.
  - apply (baseline_of_value Exact_lawful).
    destruct (eqb fe (lit 0)) eqn:E; [|reflexivity].
    apply Exact_eqb in E. contradiction.
  - intros g Hg. cbn [base_fuel_cost].
    unfold absolute_delta, percent_delta.
    rewrite !Exact_calc_returns_nz by assumption.
    unfold cost_differences_value, percentage_increase_dict_value.
    cbn [bind fst snd].
    cbn in Hg.
    destruct Hg as [<- | [<- | [<- | [<- | [<- | []]]]]];
      (do 2 eexists; split; [find_entry|]; split; [find_entry|]);
      rewrite ?Exact_cost_difference_nz, ?Exact_percentage_nz by assumption;
      cbn [lit Exact]; field.
Qed.

Lemma absolute_is_percent_of_baseline_exact_witness :
  exists b a p,
    baseline_of 40 (-12000) 1.6 = Ok b /\
    absolute_delta 40 (-12000) 1.6 "E" = Ok a /\
    percent_delta 40 (-12000) 1.6 "E" = Ok p /\
    a == base_fuel_cost b * p / 100.
Proof.
  destruct (absolute_is_percent_of_baseline_exact 40 (-12000) 1.6)
    as (b & Hb & Hg); try discriminate.
  destruct (Hg "E") as (a & p & Ha & Hp & Heq).
  { do 4 right. left. reflexivity. }
  exists b, a, p. repeat split; assumption.
Defined.

(** X8. In exact arithmetic, for inputs none of which is zero, the
    absolute delta of a grade is proportional to how far its RRC lies
    above grade A's 6.5: for any two grades g and h,
    delta[g] * (rrc[h] - 6.5) = delta[h] * (rrc[g] - 6.5). *)
Theorem delta_proportional_to_rrc_excess_exact (fe ad fp : Q) :
  ~ fe == 0 -> ~ ad == 0 -> ~ fp == 0 ->
  forall g rg h rh,
    In (g, rg) tyre_grades -> In (h, rh) tyre_grades ->
    exists ag ah,
      absolute_delta fe ad fp g = Ok ag /\
      absolute_delta fe ad fp h = Ok ah /\
      ag * (rh - 6.5) == ah * (rg - 6.5).
Proof.
  intros Hfe Had Hfp g rg h rh Hg Hh.
  unfold absolute_delta.
  rewrite !Exact_calc_returns_nz by assumption.
  unfold cost_differences_value. cbn [bind fst snd].
  cbn in Hg, Hh.
  destruct Hg as [E | [E | [E | [E | [E | []]]]]]; injection E as <- <-;
    destruct Hh as [E | [E | [E | [E | [E | []]]]]]; injection E as <- <-;
    (do 2 eexists; split; [find_entry|]; split; [find_entry|]);
    rewrite ?Exact_cost_difference_nz by assumption;
    rewrite ?Exact_fuel_increase_linear;
    cbn [lit Exact]; ring.
Qed.

Lemma delta_proportional_to_rrc_excess_exact_witness :
  exists ab ae,
    absolute_delta 40 12000 1.6 "B" = Ok ab /\
    absolute_delta 40 12000 1.6 "E" = Ok ae /\
    ab * (11.0 - 6.5) == ae * (7.2 - 6.5).
Proof.
  destruct (delta_proportional_to_rrc_excess_exact 40 12000 1.6)
    with (g := "B") (rg := 7.2) (h := "E") (rh := 11.0)
    as (ab & ae & Hb & He & Heq); try discriminate.
  { right. left. reflexivity. }
  { do 4 right. left. reflexivity. }
  exists ab, ae. repeat split; assumption.
Defined.

(** X9. In exact arithmetic the absolute deltas depend on distance and
    price only through their product: two inputs with the same fuel
    economy and the same annual distance * fuel price give the same
    absolute delta for every grade. *)
Theorem deltas_depend_on_distance_times_price_exact
    (fe ad1 fp1 ad2 fp2 : Q) :
  ~ fe == 0 -> ~ ad1 == 0 -> ~ fp1 == 0 -> ~ ad2 == 0 -> ~ fp2 == 0 ->
  ad1 * fp1 == ad2 * fp2 ->
  forall g, In g grades ->
  exists a1 a2,
    absolute_delta fe ad1 fp1 g = Ok a1 /\
    absolute_delta fe ad2 fp2 g = Ok a2 /\
    a1 == a2.
Proof.
  intros Hfe Had1 Hfp1 Had2 Hfp2 Hprod g Hg.
  unfold absolute_delta.
  rewrite !Exact_calc_returns_nz by assumption.
  unfold cost_differences_value. cbn [bind fst snd].
  assert (Hbase : base_fuel_cost_value fe ad1 fp1
                  == base_fuel_cost_value fe ad2 fp2).
  { rewrite !Exact_base_cost_factors by assumption.
    rewrite Hprod. reflexivity. }
  cbn in Hg.
  destruct Hg as [<- | [<- | [<- | [<- | [<- | []]]]]];
    (do 2 eexists; split; [find_entry|]; split; [find_entry|]);
    rewrite ?Exact_cost_difference_nz by assumption;
    rewrite ?Hbase; apply Qeq_refl.
Qed.

Lemma deltas_depend_on_distance_times_price_exact_witness :
  exists a1 a2,
    absolute_delta 40 12000 1.6 "C" = Ok a1 /\
    absolute_delta 40 1.6 12000 "C" = Ok a2 /\
    a1 == a2.
Proof.
  apply (deltas_depend_on_distance_times_price_exact 40 12000 1.6 1.6 12000);
    try discriminate; try reflexivity.
  do 2 right. left. reflexivity.
Defined.

Lemma Exact_neg_times_pos (x y : Q) : x < 0 -> 0 < y -> x * y < 0.
Proof.
  intros Hx Hy.
  assert (H : 0 < - x * y).
  { apply Qmult_lt_0_compat; [|assumption].
    apply (Qopp_lt_compat x 0) in Hx. exact Hx. }
  apply Qopp_lt_compat in H.
  setoid_replace (x * y) with (- (- x * y)) by ring. exact H.
Qed.

(** X10. In exact arithmetic a negative annual distance (with positive
    fuel economy and price) goes through unchecked and gives, for every
    grade other than A, a negative absolute delta with a positive percent
    delta. *)
Theorem negative_distance_gives_negative_deltas_exact (fe ad fp : Q) :
  0 < fe -> ad < 0 -> 0 < fp ->
  forall g, In g non_baseline_grades ->
  exists a p,
    absolute_delta fe ad fp g = Ok a /\
    percent_delta fe ad fp g = Ok p /\
    a < 0 /\ 0 < p.
Proof.
  intros Hfe Had Hfp g Hg.
  assert (Hfe0 : ~ fe == 0) by (apply Exact_positive_nonzero; assumption).
  assert (Hfp0 : ~ fp == 0) by (apply Exact_positive_nonzero; assumption).
  assert (Had0 : ~ ad == 0).
  { intros E. rewrite E in Had. apply (Qlt_irrefl _ Had). }
  assert (Hbase : base_fuel_cost_value fe ad fp < 0).
  { assert (Hopp : 0 < base_fuel_cost_value fe (- ad) fp).
    { apply Exact_base_cost_positive; try assumption.
      apply (Qopp_lt_compat ad 0) in Had. exact Had. }
    assert (E : base_fuel_cost_value fe ad fp
                == - base_fuel_cost_value fe (- ad) fp).
    { rewrite !Exact_base_cost_factors by assumption. field. assumption. }
    rewrite E. apply (Qopp_lt_compat 0 _) in Hopp. exact Hopp. }
  destruct Exact_fuel_increase_strict as (HB & HBC & HCD & HDE).
  assert (HC : 0 < fuel_increase_value (num := Q) 8.4)
    by (eapply Qlt_trans; eassumption).
  assert (HD : 0 < fuel_increase_value (num := Q) 9.8)
    by (eapply Qlt_trans; eassumption).
  assert (HE : 0 < fuel_increase_value (num := Q) 11.0)
    by (eapply Qlt_trans; eassumption).
  unfold absolute_delta, percent_delta.
  rewrite !Exact_calc_returns_nz by assumption.
  unfold cost_differences_value, percentage_increase_dict_value.
  cbn [bind fst snd].
  cbn in Hg.
  destruct Hg as [<- | [<- | [<- | [<- | []]]]];
    (do 2 eexists; split; [find_entry|]; split; [find_entry|]);
    rewrite Exact_cost_difference_nz, Exact_percentage_nz by assumption;
    cbn [lit Exact];
    (split;
     [ apply Exact_neg_times_pos; assumption
     | apply Qmult_lt_0_compat; [assumption | reflexivity] ]).
Qed.


Lemma negative_distance_gives_negative_deltas_exact_witness :
  exists a p,
    absolute_delta 40 (-12000) 1.6 "E" = Ok a /\
    percent_delta 40 (-12000) 1.6 "E" = Ok p /\
    a < 0 /\ 0 < p.
Proof.
  apply (negative_distance_gives_negative_deltas_exact 40 (-12000) 1.6);
    try reflexivity.
  do 3 right. left. reflexivity.
Defined.

(** X11. In exact arithmetic the form's minimums (fuel economy >= 1,
    annual mileage >= 1, fuel price >= 0.1) rule the error out: a press of
    the button then always writes the heading and five grade lines. *)
Theorem form_minimums_prevent_failure_exact (format_2f : Q -> string)
    (fe ad fp : Q) (page : list string) :
  leb (lit 1) fe = true -> leb (lit 1) ad = true ->
  leb (lit 0.1) fp = true ->
  exists a b c d e,
    on_calculate format_2f true fe ad fp page
    = Ok (page ++ [heading; a; b; c; d; e])%list.
Proof.
  cbn [leb lit Exact]. rewrite !Qle_bool_iff. intros Hfe Had Hfp.
  rewrite (on_calculate_value format_2f Exact_lawful).
  destruct (divides_by_zero fe ad fp) eqn:Hz.
  - apply Exact_divides_by_zero_iff in Hz.
    destruct Hz as [E | [E | E]].
    + rewrite E in Hfe. exfalso. apply (Qlt_not_le 0 1); [reflexivity | exact Hfe].
    + rewrite E in Had. exfalso. apply (Qlt_not_le 0 1); [reflexivity | exact Had].
    + rewrite E in Hfp. exfalso.
      apply (Qlt_not_le 0 0.1); [reflexivity | exact Hfp].
  - do 5 eexists. reflexivity.
Qed.

Lemma form_minimums_prevent_failure_exact_witness :
  exists a b c d e,
    on_calculate (fun _ : Q => "0.00") true 1 1 0.1 []
    = Ok ([] ++ [heading; a; b; c; d; e])%list.
Proof.
  apply (form_minimums_prevent_failure_exact (fun _ => "0.00") 1 1 0.1 []);
    reflexivity.
Defined.

End ExactFormula.
